(** * CSV batch utilities of places_autocomplete_rs

    A shallow embedding of the three scripts [remove_csv_dup.py],
    [search_files.py] and [split_csv.py].

    Abstraction level.  The scripts never look at the bytes of a file: they
    go through Python's [csv.reader], [csv.DictReader] and [csv.writer].  A
    file is therefore represented by the sequence of rows [csv.reader]
    yields from it, a row being the list of its fields, and
    [writer.writerow] appends one row to that sequence.  A file system is a
    finite map from paths to such files.  Progress messages ([print]) are
    not modelled. *)

From stdpp Require Import gmap strings list fin_maps pretty.

Open Scope string_scope.
Open Scope list_scope.
Open Scope nat_scope.

(** ** Data model *)

Abbreviation Row := (list string).
Abbreviation File := (list (list string)).
Abbreviation file_system := (gmap string (list (list string))).

(** The exceptions the scripts can raise in this model. *)
Inductive exn :=
| StopIteration
| KeyError (key : string)
| FileNotFoundError (path : string)
| AttributeError.

Inductive result (A : Type) :=
| Ok (a : A)
| Raise (e : exn).
Arguments Ok {A} a.
Arguments Raise {A} e.

Definition bind {A B} (r : result A) (k : A → result B) : result B :=
  match r with
  | Ok a => k a
  | Raise e => Raise e
  end.

Notation "x ←! r ; k" := (bind r (λ x, k))
  (at level 20, r at level 100, k at level 200, only parsing, right associativity).

(** [sep.join(fields)] *)
Definition join (sep : string) (fields : Row) : string := String.concat sep fields.

(** [open(path, 'r')]: the rows a reader over the file will yield. *)
Definition open_read (path : string) (fs : file_system) : result File :=
  match fs !! path with
  | Some rows => Ok rows
  | None => Raise (FileNotFoundError path)
  end.

(** [open(path, 'w')]: creates the file, or truncates it when it exists. *)
Definition open_write (path : string) (fs : file_system) : file_system :=
  <[path := []]> fs.

(** [writer.writerow(row)] on a writer over the file at [path]. *)
Definition writerow (path : string) (row : Row) (fs : file_system) : file_system :=
  alter (λ rows, rows ++ [row]) path fs.

(** [os.replace(src, dst)] *)
Definition os_replace (src dst : string) (fs : file_system) : result file_system :=
  match fs !! src with
  | Some rows => Ok (<[dst := rows]> (delete src fs))
  | None => Raise (FileNotFoundError src)
  end.

(** [s.endswith(suffix)] *)
Definition endswith (s suffix : string) : bool :=
  let n := String.length s in
  let m := String.length suffix in
  bool_decide (m ≤ n) && bool_decide (String.substring (n - m) m s = suffix).

(** [for x in xs: st = body(st, x)], where the body may raise. *)
Fixpoint for_each {S A} (body : S → A → result S) (st : S) (xs : list A)
  : result S :=
  match xs with
  | [] => Ok st
  | x :: xs => st ←! body st x; for_each body st xs
  end.

(** ** remove_csv_dup.py *)

Module RemoveCsvDup.

(** The canonical text of a row, [','.join(row)]. *)
Definition line_of (row : Row) : string := join "," row.

Definition temp_of (file_path : string) : string := file_path +:+ ".tmp".

(** Body of the loop of [remove_duplicates] (lines 13-17): the state is
    [unique_lines] and the file system, [temp_file_path] is the file the
    writer is over. *)
Definition visit (temp_file_path : string)
    (st : gset string * file_system) (row : Row) : gset string * file_system :=
  let line := line_of row in
  if decide (line ∈ st.1) then st
  else ({[line]} ∪ st.1, writerow temp_file_path row st.2).

(** [remove_duplicates(file_path)], run to completion. *)
Definition remove_duplicates (file_path : string) (fs : file_system)
  : result file_system :=
  let unique_lines : gset string := ∅ in
  let temp_file_path := temp_of file_path in
  rows ←! open_read file_path fs;
  let fs := open_write temp_file_path fs in
  let st := foldl (visit temp_file_path) (unique_lines, fs) rows in
  os_replace temp_file_path file_path st.2.

(** *** The same function as a machine that can be stopped

    One step per effect on the file system, so that a run interrupted
    after any number of steps can be observed.  The reader is lazy: each
    iteration reads the next row of the file that is at [file_path] at that
    moment. *)

Inductive phase :=
| OpeningInput
| OpeningOutput
| Copying
| Replacing
| Finished
| Failed (e : exn).

Record state := State {
  ph : phase;
  line_num : nat;
  unique_lines : gset string;
  files : file_system
}.

Definition initial (fs : file_system) : state :=
  {| ph := OpeningInput; line_num := 0; unique_lines := ∅; files := fs |}.

Definition step (file_path : string) (s : state) : state :=
  let temp_file_path := temp_of file_path in
  match ph s with
  | OpeningInput =>
      match open_read file_path (files s) with
      | Ok _ => State OpeningOutput (line_num s) (unique_lines s) (files s)
      | Raise e => State (Failed e) (line_num s) (unique_lines s) (files s)
      end
  | OpeningOutput =>
      State Copying (line_num s) (unique_lines s)
            (open_write temp_file_path (files s))
  | Copying =>
      match files s !! file_path ≫= (λ rows, rows !! line_num s) with
      | Some row =>
          let st := visit temp_file_path (unique_lines s, files s) row in
          State Copying (S (line_num s)) st.1 st.2
      | None => State Replacing (line_num s) (unique_lines s) (files s)
      end
  | Replacing =>
      match os_replace temp_file_path file_path (files s) with
      | Ok fs => State Finished (line_num s) (unique_lines s) fs
      | Raise e => State (Failed e) (line_num s) (unique_lines s) (files s)
      end
  | Finished | Failed _ => s
  end.

(** The state of a run stopped after [n] steps. *)
Fixpoint run (file_path : string) (n : nat) (s : state) : state :=
  match n with
  | 0 => s
  | S n => run file_path n (step file_path s)
  end.

(** *** Reading of the specification

    "the subsequence of rows that are the first occurrence of their
    canonical text key": a row is kept when no earlier row ([earlier])
    has the same canonical text. *)
Fixpoint first_occurrences_after (earlier rows : File) : File :=
  match rows with
  | [] => []
  | row :: rows =>
      (if decide (line_of row ∈ line_of <$> earlier) then [] else [row])
        ++ first_occurrences_after (earlier ++ [row]) rows
  end.

Definition first_occurrences (rows : File) : File :=
  first_occurrences_after [] rows.

(** The canonical texts of [rows], as [unique_lines] holds them. *)
Definition lines_of (rows : File) : gset string :=
  list_to_set (line_of <$> rows).

(** The number of distinct canonical texts among [rows]. *)
Definition distinct_lines (rows : File) : nat := size (lines_of rows).

(** *** Sample data

    The scenario of the specification: rows [a,1], [b,2], [a,1], [c,3] in
    the file the script is run on. *)
Definition sample_path : string := "data/data_nl_1.csv".

Definition sample_rows : File := [["a"; "1"]; ["b"; "2"]; ["a"; "1"]; ["c"; "3"]].

Definition sample_fs : file_system := {[ sample_path := sample_rows ]}.

End RemoveCsvDup.

(** ** search_files.py *)

Module SearchFiles.

(** The values a [csv.DictReader] row can hold: a field, [None] for a
    field missing from a short row ([restval]), and the list of surplus
    fields of a long row, stored under the key [None] ([restkey]). *)
Inductive value :=
| VNone
| VStr (s : string)
| VList (l : list string).

#[global] Instance value_eq_dec : EqDecision value.
Proof. solve_decision. Defined.

(** A row as a Python [dict]: keys are the header's field names
    ([Some name]) and possibly [None]. *)
Abbreviation record := (gmap (option string) value).

(** [dict(zip(fieldnames, row))]: a later pair overrides an earlier one. *)
Definition dict_zip (fieldnames row : Row) : record :=
  foldl (λ d kv, <[Some kv.1 := VStr kv.2]> d) ∅ (zip fieldnames row).

(** [csv.DictReader.__next__] once the row is read. *)
Definition make_record (fieldnames row : Row) : record :=
  let d := dict_zip fieldnames row in
  let lf := length fieldnames in
  let lr := length row in
  if decide (lf < lr) then <[None := VList (drop lf row)]> d
  else if decide (lr < lf) then
    foldl (λ d key, <[Some key := VNone]> d) d (drop lr fieldnames)
  else d.

(** [csv.DictReader(csvfile)]: the first row gives the field names, blank
    rows are skipped. *)
Definition DictReader (rows : File) : list record :=
  match rows with
  | [] => []
  | fieldnames :: rows =>
      make_record fieldnames <$> filter (λ row, row ≠ []) rows
  end.

(** Lines 22-24: [row['postal_code']] raises when the key is missing. *)
Definition check_row (postal_code : string)
    (results : list record) (row : record) : result (list record) :=
  match row !! Some "postal_code" with
  | None => Raise (KeyError "postal_code")
  | Some v =>
      if decide (v = VStr postal_code) then Ok (results ++ [row])
      else Ok results
  end.

(** Lines 15-24, for one entry of the listing. *)
Definition search_file (postal_code : string)
    (results : list record) (entry : string * File) : result (list record) :=
  if endswith entry.1 ".csv" then
    for_each (check_row postal_code) results (DictReader entry.2)
  else Ok results.

(** [search_csv_files(directory, postal_code)]; [directory] is given by its
    entries in the order [os.listdir] yields them, each with the rows of
    the file.  The directory is thus one that exists and its entries are
    files that can be read: the failures of [os.listdir] and of [open] are
    outside the model. *)
Definition search_csv_files (directory : list (string * File))
    (postal_code : string) : result (list record) :=
  for_each (search_file postal_code) [] directory.

(** *** Reading of the specification *)

Definition is_csv (entry : string * File) : Prop := endswith entry.1 ".csv" = true.

(** The file has a [postal_code] column. *)
Definition has_postal_code_column (rows : File) : Prop :=
  ∃ fieldnames data, rows = fieldnames :: data ∧ "postal_code" ∈ fieldnames.

(** The [postal_code] field of the record is the target, as strings. *)
Definition matches (postal_code : string) (row : record) : Prop :=
  row !! Some "postal_code" = Some (VStr postal_code).

#[global] Instance matches_dec (postal_code : string) (row : record) :
  Decision (matches postal_code row).
Proof. unfold matches. apply _. Defined.

(** All matching records, by file in listing order, then by row. *)
Definition matching_records (directory : list (string * File))
    (postal_code : string) : list record :=
  entry ← directory;
  if endswith entry.1 ".csv" then filter (matches postal_code) (DictReader entry.2)
  else [].

(** *** Sample data

    Two CSV files, one of them with a record whose [postal_code] is
    [6369CW] and one whose [postal_code] differs from it by case only, and
    an entry that is not a CSV file. *)
Definition sample_directory : list (string * File) :=
  [ ("data_nl_1.csv", [["postal_code"; "city"];
                       ["6369CW"; "Simpelveld"];
                       ["6369cw"; "Simpelveld"]]);
    ("data_nl_2.csv", [["city"; "postal_code"];
                       ["Heerlen"; "6411AA"]]);
    ("README.md", [["places"]]) ].

(** A directory whose only CSV file has a header without [postal_code]
    and no data row. *)
Definition header_only_directory : list (string * File) :=
  [ ("cities.csv", [["city"; "country"]]) ].

(** A directory with a CSV file that has data rows but no [postal_code]
    column, after a well-formed one. *)
Definition missing_column_directory : list (string * File) :=
  [ ("data_nl_1.csv", [["postal_code"; "city"]; ["6369CW"; "Simpelveld"]]);
    ("cities.csv", [["city"; "country"]; ["Heerlen"; "NL"]]) ].

End SearchFiles.

(** ** split_csv.py *)

Module SplitCsv.

Definition default_max_lines : Z := 250000.

(** [os.path.join(a, b)] (POSIX) *)
Definition os_path_join (a b : string) : string :=
  if String.prefix "/" b then b
  else if bool_decide (a = "") || endswith a "/" then a +:+ b
  else a +:+ "/" +:+ b.

(** [f'part_{file_count}.csv'] *)
Definition part_name (file_count : nat) : string :=
  "part_" +:+ pretty file_count +:+ ".csv".

(** The variables of the loop; [current_file] is the path of the open
    output file, over which [writer] writes ([None] before the first
    row). *)
Record state := State {
  file_count : nat;
  current_line_count : nat;
  current_file : option string;
  files : file_system
}.

(** Lines 24-39: start a new part when the count is zero. *)
Definition rotate (output_folder : string) (headers : Row) (s : state) : state :=
  if decide (current_line_count s = 0) then
    let file_count := S (file_count s) in
    let current_file_path := os_path_join output_folder (part_name file_count) in
    let fs := open_write current_file_path (files s) in
    let fs := writerow current_file_path headers fs in
    State file_count (current_line_count s) (Some current_file_path) fs
  else s.

(** Lines 24-49: the body of the loop. *)
Definition write_row (output_folder : string) (headers : Row) (max_lines : Z)
    (s : state) (row : Row) : result state :=
  let s := rotate output_folder headers s in
  match current_file s with
  | None => Raise AttributeError
  | Some path =>
      let fs := writerow path row (files s) in
      let current_line_count := S (current_line_count s) in
      let current_line_count :=
        if decide (max_lines ≤ Z.of_nat current_line_count)%Z then 0
        else current_line_count in
      Ok (State (file_count s) current_line_count (current_file s) fs)
  end.

(** Lines 6-10: the output folder is created when it does not exist.
    The file system of the model holds files, not folders: a folder that
    exists, or that [os.makedirs] creates, leaves no trace in it.  The one
    folder the model tells apart is the empty path: [os.path.exists('')]
    is false and [os.makedirs('')] raises [FileNotFoundError]. *)
Definition ensure_folder (output_folder : string) : result unit :=
  if decide (output_folder = "") then Raise (FileNotFoundError output_folder)
  else Ok ().

(** [split_csv(input_file, output_folder, max_lines)].  [source] is the
    row sequence of the input file, which is taken not to be one of the
    files the run writes; [fs] holds the files present before the run.
    The result is the final state of the loop variables. *)
Definition split_csv (source : File) (output_folder : string) (max_lines : Z)
    (fs : file_system) : result state :=
  bind (ensure_folder output_folder) (λ _,
  match source with
  | [] => Raise StopIteration
  | headers :: rows =>
      for_each (write_row output_folder headers max_lines)
               (State 0 0 None fs) rows
  end).

(** The call [split_csv(input_file, output_folder)], with the default
    [max_lines], as the script makes it. *)
Definition split_csv_default (source : File) (output_folder : string)
    (fs : file_system) : result state :=
  split_csv source output_folder default_max_lines fs.

(** *** Reading of the specification *)

(** The path of output file number [i]. *)
Definition part_path (output_folder : string) (i : nat) : string :=
  os_path_join output_folder (part_name i).

(** The data rows of output file number [i]: its rows but the first. *)
Definition data_rows (output_folder : string) (fs : file_system) (i : nat) : File :=
  drop 1 (default [] (fs !! part_path output_folder i)).

(** The output files of a run that ended in state [s], by number. *)
Definition part_numbers (s : state) : list nat := seq 1 (file_count s).

(** *** Loop invariant

    After the rows [read] the parts written hold [chunks], in order: their
    rows are [read]; every part holds [max_lines] rows, except the last
    one while it is being filled, which holds [current_line_count] rows;
    no other path of the file system [fs] was touched. *)
Record split_inv (output_folder : string) (headers : Row) (max_lines : Z)
    (fs : file_system) (read : File) (s : state) (chunks : list File) : Prop := {
  inv_concat : concat chunks = read;
  inv_count : length chunks = file_count s;
  inv_files : ∀ i chunk, chunks !! i = Some chunk →
    files s !! part_path output_folder (S i) = Some (headers :: chunk);
  inv_frame : ∀ path,
    (∀ i, i < file_count s → path ≠ part_path output_folder (S i)) →
    files s !! path = fs !! path;
  inv_sizes : ∀ i chunk, chunks !! i = Some chunk →
    Z.of_nat (length chunk) =
      if decide (S i = file_count s ∧ current_line_count s ≠ 0)
      then Z.of_nat (current_line_count s) else max_lines;
  inv_total :
    Z.of_nat (length read) =
      (Z.of_nat (file_count s) * max_lines
       - if decide (current_line_count s = 0%nat) then 0
         else max_lines - Z.of_nat (current_line_count s))%Z;
  inv_bound : (Z.of_nat (current_line_count s) < max_lines)%Z;
  inv_current :
    current_file s =
      if decide (file_count s = 0) then None
      else Some (part_path output_folder (file_count s));
  inv_start : file_count s = 0 → current_line_count s = 0
}.

(** *** Sample data

    The scenario of the specification: header [id,name], five data rows,
    at most two rows per part. *)
Definition sample_headers : Row := ["id"; "name"].

Definition sample_data : File :=
  [["1"; "a"]; ["2"; "b"]; ["3"; "c"]; ["4"; "d"]; ["5"; "e"]].

Definition sample_source : File := sample_headers :: sample_data.

End SplitCsv.

(** * Verification *)

(** ** Strings and paths *)

Section string_facts.

Lemma string_length_app (s t : string) :
  String.length (s +:+ t) = String.length s + String.length t.
Proof. induction s as [|c s IH]; simpl; [done | by rewrite IH]. Qed.

Lemma string_app_inj_r (t s1 s2 : string) : s1 +:+ t = s2 +:+ t → s1 = s2.
Proof.
  revert s2. induction s1 as [|c s1 IH]; intros [|c' s2] Heq.
  - done.
  - apply (f_equal String.length) in Heq.
    rewrite !string_length_app in Heq. simpl in Heq. lia.
  - apply (f_equal String.length) in Heq.
    rewrite !string_length_app in Heq. simpl in Heq. lia.
  - change (String c (s1 +:+ t) = String c' (s2 +:+ t)) in Heq.
    injection Heq as -> Heq. f_equal. by apply IH.
Qed.

Lemma string_app_ne_l (s t : string) : t ≠ "" → s +:+ t ≠ s.
Proof.
  intros Ht Heq. apply (f_equal String.length) in Heq.
  rewrite string_length_app in Heq.
  destruct t; [done | simpl in Heq; lia].
Qed.

Lemma substring_all (s : string) : String.substring 0 (String.length s) s = s.
Proof. induction s as [|c s IH]; simpl; [done | by rewrite IH]. Qed.

Lemma substring_app_r (s t : string) (m : nat) :
  String.substring (String.length s) m (s +:+ t) = String.substring 0 m t.
Proof. induction s as [|c s IH]; simpl; [done | apply IH]. Qed.

Lemma substring_split (s : string) : ∀ k,
  k ≤ String.length s →
  String.substring 0 k s +:+ String.substring k (String.length s - k) s = s.
Proof.
  induction s as [|c s IH]; intros [|k] Hk; simpl in *; try done; try lia.
  - by rewrite substring_all.
  - change (String c ?a +:+ ?b) with (String c (a +:+ b)).
    f_equal. apply IH. lia.
Qed.

(** [endswith] holds exactly of the strings that end with the suffix. *)
Lemma endswith_spec (s suffix : string) :
  endswith s suffix = true ↔ ∃ stem, s = stem +:+ suffix.
Proof.
  unfold endswith. rewrite andb_true_iff, !bool_decide_eq_true. split.
  - intros [Hle Hsub].
    exists (String.substring 0 (String.length s - String.length suffix) s).
    pose proof (substring_split s (String.length s - String.length suffix))
      as Hsplit.
    replace (String.length s - (String.length s - String.length suffix))
      with (String.length suffix) in Hsplit by lia.
    rewrite Hsub in Hsplit. symmetry. apply Hsplit. lia.
  - intros [stem ->]. rewrite string_length_app. split; [lia|].
    replace (String.length stem + String.length suffix - String.length suffix)
      with (String.length stem) by lia.
    by rewrite substring_app_r, substring_all.
Qed.

End string_facts.

(** ** File-system operations *)

Section file_system_facts.
Implicit Types (fs : file_system) (rows : File) (row : Row).

Lemma writerow_insert fs path rows row :
  fs !! path = Some rows →
  writerow path row fs = <[path := rows ++ [row]]> fs.
Proof.
  intros Hrows. unfold writerow. apply map_eq. intros q.
  rewrite lookup_alter, lookup_insert.
  case_decide; subst; by rewrite ?Hrows.
Qed.

Lemma writerow_lookup_ne fs path q row :
  path ≠ q → writerow path row fs !! q = fs !! q.
Proof. intros Hne. unfold writerow. by rewrite lookup_alter_ne. Qed.

Lemma open_write_lookup_ne fs path q :
  path ≠ q → open_write path fs !! q = fs !! q.
Proof. intros Hne. unfold open_write. by rewrite lookup_insert_ne. Qed.

End file_system_facts.

(** ** remove_csv_dup.py *)

Section remove_duplicates_facts.
Import RemoveCsvDup.
Implicit Types (fs : file_system) (rows earlier : File) (row : Row).

Lemma temp_of_ne file_path : temp_of file_path ≠ file_path.
Proof. unfold temp_of. by apply string_app_ne_l. Qed.

Lemma lines_of_snoc_seen earlier row :
  line_of row ∈ line_of <$> earlier → lines_of (earlier ++ [row]) = lines_of earlier.
Proof.
  intros Hin. unfold lines_of. apply set_eq. intros x.
  rewrite !elem_of_list_to_set, fmap_app, elem_of_app. simpl.
  rewrite list_elem_of_singleton. split; [|tauto].
  intros [?| ->]; done.
Qed.

Lemma lines_of_snoc earlier row :
  lines_of (earlier ++ [row]) = {[line_of row]} ∪ lines_of earlier.
Proof.
  unfold lines_of. apply set_eq. intros x.
  rewrite elem_of_union, !elem_of_list_to_set, fmap_app, elem_of_app. simpl.
  rewrite list_elem_of_singleton, elem_of_singleton. tauto.
Qed.

(** The loop writes, after what the temporary file holds, the first
    occurrences among the rows it reads. *)
Lemma foldl_visit temp rows : ∀ earlier fs out,
  fs !! temp = Some out →
  foldl (visit temp) (lines_of earlier, fs) rows =
    (lines_of (earlier ++ rows),
     <[temp := out ++ first_occurrences_after earlier rows]> fs).
Proof.
  induction rows as [|row rows IH]; intros earlier fs out Hout; simpl.
  - rewrite !app_nil_r. by rewrite insert_id.
  - unfold visit at 2. simpl.
    destruct (decide (line_of row ∈ lines_of earlier)) as [Hin|Hin];
      unfold lines_of in Hin; rewrite elem_of_list_to_set in Hin.
    + rewrite decide_True by done. simpl.
      rewrite <- (lines_of_snoc_seen earlier row Hin).
      rewrite (IH (earlier ++ [row]) fs out Hout).
      by rewrite <- app_assoc.
    + rewrite decide_False by done. simpl.
      rewrite <- lines_of_snoc.
      rewrite (writerow_insert _ _ _ _ Hout).
      rewrite (IH (earlier ++ [row]) _ (out ++ [row])) by apply lookup_insert_eq.
      by rewrite insert_insert_eq, <- !app_assoc.
Qed.

(** The result of a complete run, in closed form. *)
Lemma remove_duplicates_closed file_path fs rows :
  fs !! file_path = Some rows →
  remove_duplicates file_path fs =
    Ok (<[file_path := first_occurrences rows]> (delete (temp_of file_path) fs)).
Proof.
  intros Hrows. unfold remove_duplicates, open_read. rewrite Hrows. simpl.
  change (∅ : gset string) with (lines_of []).
  rewrite (foldl_visit _ rows [] _ []) by apply lookup_insert_eq.
  simpl. unfold os_replace, open_write.
  rewrite insert_insert_eq, lookup_insert_eq.
  by rewrite delete_insert_eq.
Qed.

Lemma remove_duplicates_missing file_path fs :
  fs !! file_path = None →
  remove_duplicates file_path fs = Raise (FileNotFoundError file_path).
Proof. intros Hnone. unfold remove_duplicates, open_read. by rewrite Hnone. Qed.

(** *** First occurrences *)

Lemma first_occurrences_after_sublist rows : ∀ earlier,
  first_occurrences_after earlier rows `sublist_of` rows.
Proof.
  induction rows as [|row rows IH]; intros earlier; simpl; [constructor|].
  case_decide; simpl.
  - apply sublist_cons, IH.
  - apply sublist_skip, IH.
Qed.

Lemma lines_of_app rows1 rows2 :
  lines_of (rows1 ++ rows2) = lines_of rows1 ∪ lines_of rows2.
Proof. unfold lines_of. by rewrite fmap_app, list_to_set_app_L. Qed.

Lemma first_occurrences_after_lines rows : ∀ earlier,
  lines_of (earlier ++ first_occurrences_after earlier rows)
  = lines_of (earlier ++ rows).
Proof.
  induction rows as [|row rows IH]; intros earlier; simpl; [done|].
  rewrite (cons_middle row earlier rows), (app_assoc earlier [row] rows).
  rewrite <- (IH (earlier ++ [row])).
  case_decide as Hin; simpl.
  - rewrite !lines_of_app. rewrite <- (lines_of_app earlier [row]).
    by rewrite lines_of_snoc_seen.
  - by rewrite (cons_middle row earlier), app_assoc.
Qed.

Lemma first_occurrences_after_fresh rows : ∀ earlier,
  NoDup (line_of <$> first_occurrences_after earlier rows) ∧
  ∀ line, line ∈ line_of <$> first_occurrences_after earlier rows →
          line ∉ line_of <$> earlier.
Proof.
  induction rows as [|row rows IH]; intros earlier; simpl.
  - split; [constructor | by intros line ?%elem_of_nil].
  - destruct (IH (earlier ++ [row])) as [Hnd Hfresh].
    assert (∀ line, line ∈ line_of <$> first_occurrences_after (earlier ++ [row]) rows →
                    (line ∉ line_of <$> earlier) ∧ line ≠ line_of row) as Hfresh'.
    { intros line Hin. specialize (Hfresh line Hin).
      rewrite fmap_app, elem_of_app in Hfresh. simpl in Hfresh.
      rewrite list_elem_of_singleton in Hfresh. tauto. }
    case_decide as Hin; simpl.
    + split; [done|]. intros line Hl. by apply Hfresh'.
    + split.
      * constructor; [|done]. intros Hl. by apply Hfresh' in Hl as [_ ?].
      * intros line [-> | Hl]%elem_of_cons; [done|]. by apply Hfresh'.
Qed.

(** Rows with pairwise distinct canonical texts, none of them seen, are
    all kept. *)
Lemma first_occurrences_after_id rows : ∀ earlier,
  NoDup (line_of <$> rows) →
  (∀ line, line ∈ line_of <$> rows → line ∉ line_of <$> earlier) →
  first_occurrences_after earlier rows = rows.
Proof.
  induction rows as [|row rows IH]; intros earlier Hnd Hfresh; simpl; [done|].
  apply NoDup_cons in Hnd as [Hrow Hnd].
  rewrite decide_False by (apply Hfresh; simpl; left).
  simpl. f_equal. apply IH; [done|].
  intros line Hl. rewrite fmap_app, elem_of_app. simpl.
  rewrite list_elem_of_singleton. intros [He| ->]; [|done].
  by apply (Hfresh line); [simpl; right|].
Qed.

Lemma first_occurrences_idemp rows :
  first_occurrences (first_occurrences rows) = first_occurrences rows.
Proof.
  unfold first_occurrences.
  destruct (first_occurrences_after_fresh rows []) as [Hnd _].
  apply first_occurrences_after_id; [done|].
  intros line _. simpl. apply not_elem_of_nil.
Qed.

Lemma first_occurrences_length rows :
  length (first_occurrences rows) = distinct_lines rows.
Proof.
  unfold distinct_lines, first_occurrences.
  pose proof (first_occurrences_after_lines rows []) as Hlines.
  simpl in Hlines. rewrite <- Hlines.
  destruct (first_occurrences_after_fresh rows []) as [Hnd _].
  unfold lines_of. rewrite size_list_to_set by done.
  by rewrite length_fmap.
Qed.

(** *** The stoppable machine *)

Lemma visit_lookup_ne temp (st : gset string * file_system) row q :
  temp ≠ q → (visit temp st row).2 !! q = st.2 !! q.
Proof.
  intros Hne. unfold visit. case_decide; simpl; [done|].
  by apply writerow_lookup_ne.
Qed.

Lemma run_add file_path n m s :
  run file_path (n + m) s = run file_path m (run file_path n s).
Proof. revert s. induction n as [|n IH]; intros s; simpl; [done | apply IH]. Qed.

Lemma run_finished file_path n s :
  ph s = Finished → run file_path n s = s.
Proof.
  intros Hs. induction n as [|n IH]; simpl; [done|].
  unfold step. by rewrite Hs.
Qed.

Lemma run_failed file_path n s e :
  ph s = Failed e → run file_path n s = s.
Proof.
  intros Hs. induction n as [|n IH]; simpl; [done|].
  unfold step. by rewrite Hs.
Qed.

(** Until it has finished, a step writes the temporary file only. *)
Lemma step_frame file_path s q :
  q ≠ temp_of file_path →
  ph (step file_path s) ≠ Finished →
  files (step file_path s) !! q = files s !! q.
Proof.
  intros Hq. unfold step. destruct (ph s) eqn:Hph; simpl; try done.
  - by destruct (open_read file_path (files s)).
  - intros _. by apply open_write_lookup_ne.
  - destruct (files s !! file_path ≫= _) as [row|]; simpl; [|done].
    intros _. by rewrite visit_lookup_ne.
  - by destruct (os_replace _ _ _).
Qed.

Lemma run_frame file_path q n : ∀ s,
  q ≠ temp_of file_path →
  ph (run file_path n s) ≠ Finished →
  files (run file_path n s) !! q = files s !! q.
Proof.
  induction n as [|n IH]; intros s Hq Hph; simpl in *; [done|].
  rewrite IH by done. apply step_frame; [done|].
  intros Hfin. by rewrite run_finished in Hph.
Qed.

(** The copying steps compute the loop of the complete run. *)
Lemma run_copying file_path rest : ∀ read U fs,
  fs !! file_path = Some (read ++ rest) →
  run file_path (length rest) (State Copying (length read) U fs) =
    State Copying (length (read ++ rest))
          (foldl (visit (temp_of file_path)) (U, fs) rest).1
          (foldl (visit (temp_of file_path)) (U, fs) rest).2.
Proof.
  induction rest as [|row rest IH]; intros read U fs Hfile; simpl.
  - by rewrite app_nil_r.
  - unfold step at 1. simpl. rewrite Hfile. simpl.
    rewrite list_lookup_middle by done.
    replace (S (length read)) with (length (read ++ [row]))
      by (rewrite length_app; simpl; lia).
    rewrite IH.
    + by rewrite <- app_assoc, <- surjective_pairing.
    + rewrite visit_lookup_ne by apply temp_of_ne. simpl.
      by rewrite <- app_assoc.
Qed.

(** A run that is not stopped finishes, with the result of
    [remove_duplicates]. *)
Lemma run_completes_state file_path fs rows :
  fs !! file_path = Some rows →
  run file_path (length rows + 4) (initial fs) =
    State Finished (length rows) (lines_of rows)
          (<[file_path := first_occurrences rows]> (delete (temp_of file_path) fs)).
Proof.
  intros Hrows.
  replace (length rows + 4) with (2 + (length rows + 2)) by lia.
  rewrite (run_add _ 2). simpl run at 2. unfold step at 1 2. simpl.
  unfold open_read. rewrite Hrows. simpl.
  rewrite run_add.
  rewrite (run_copying file_path rows [] ∅)
    by (rewrite open_write_lookup_ne by apply temp_of_ne; done).
  change (∅ : gset string) with (lines_of []).
  rewrite (foldl_visit _ rows [] _ []) by apply lookup_insert_eq.
  unfold open_write. rewrite insert_insert_eq. simpl.
  unfold step at 2. simpl.
  rewrite lookup_insert_ne by apply temp_of_ne. rewrite Hrows. simpl.
  rewrite lookup_ge_None_2 by done.
  unfold step. simpl. unfold os_replace. rewrite lookup_insert_eq. simpl.
  by rewrite delete_insert_eq.
Qed.

Lemma run_completes file_path fs rows :
  fs !! file_path = Some rows →
  ∃ fs', remove_duplicates file_path fs = Ok fs' ∧
         ph (run file_path (length rows + 4) (initial fs)) = Finished ∧
         files (run file_path (length rows + 4) (initial fs)) = fs'.
Proof.
  intros Hrows. rewrite (run_completes_state _ _ _ Hrows).
  eexists. split; [by apply remove_duplicates_closed|done].
Qed.

(** X8: whenever the machine is found finished, the file system is the result
    of the complete run: the replace is the only step that shows. *)
Lemma run_finished_result file_path fs n :
  ph (run file_path n (initial fs)) = Finished →
  remove_duplicates file_path fs = Ok (files (run file_path n (initial fs))).
Proof.
  intros Hfin. destruct (fs !! file_path) as [rows|] eqn:Hrows.
  - pose proof (run_completes_state _ _ _ Hrows) as Hend.
    assert (run file_path (n + (length rows + 4)) (initial fs)
            = run file_path n (initial fs)) as Heq1
      by (rewrite run_add; by apply run_finished).
    assert (run file_path (length rows + 4 + n) (initial fs)
            = run file_path (length rows + 4) (initial fs)) as Heq2
      by (rewrite run_add; apply run_finished; by rewrite Hend).
    rewrite (Nat.add_comm n) in Heq1. rewrite Heq1 in Heq2.
    rewrite Heq2, Hend. simpl. by apply remove_duplicates_closed.
  - exfalso. destruct n as [|n]; [done|]. simpl in Hfin.
    unfold step at 1 in Hfin. simpl in Hfin.
    unfold open_read in Hfin. rewrite Hrows in Hfin.
    by rewrite (run_failed _ _ _ (FileNotFoundError file_path)) in Hfin.
Qed.

(** *** Properties of [remove_duplicates] *)

(** C3: the deduplicator's output is the subsequence of the rows that are
    the first occurrence of their canonical text (fields rejoined with the
    delimiter): there are as many output rows as distinct canonical texts,
    first occurrences keep their relative order, and a row is dropped only
    when its canonical text is that of a row already written. *)
Theorem remove_duplicates_first_occurrences file_path fs rows :
  fs !! file_path = Some rows →
  ∃ fs' out,
    remove_duplicates file_path fs = Ok fs' ∧
    fs' !! file_path = Some out ∧
    out = first_occurrences rows ∧
    length out = distinct_lines rows ∧
    out `sublist_of` rows ∧
    NoDup (line_of <$> out) ∧
    (∀ row, row ∈ rows → line_of row ∈ line_of <$> out).
Proof.
  intros Hrows. eexists _, (first_occurrences rows).
  split; [by apply remove_duplicates_closed|].
  split; [apply lookup_insert_eq|]. split; [done|].
  split; [apply first_occurrences_length|].
  split; [apply first_occurrences_after_sublist|].
  split; [apply (first_occurrences_after_fresh rows [])|].
  intros row Hrow.
  pose proof (first_occurrences_after_lines rows []) as Hlines.
  simpl in Hlines. fold (first_occurrences rows) in Hlines.
  apply (elem_of_list_to_set (C:=gset string)).
  fold (lines_of (first_occurrences rows)). rewrite Hlines.
  apply elem_of_list_to_set. by apply list_elem_of_fmap_2.
Qed.

Lemma remove_duplicates_first_occurrences_sample :
  ∃ fs' out,
    remove_duplicates sample_path sample_fs = Ok fs' ∧
    fs' !! sample_path = Some out ∧
    out = first_occurrences sample_rows ∧
    length out = distinct_lines sample_rows ∧
    out `sublist_of` sample_rows ∧
    NoDup (line_of <$> out) ∧
    (∀ row, row ∈ sample_rows → line_of row ∈ line_of <$> out).
Proof.
  apply (remove_duplicates_first_occurrences sample_path sample_fs sample_rows).
  reflexivity.
Defined.

(** The scenario of the specification, computed: the second [a,1] is
    dropped, and the temporary file is gone. *)
Lemma remove_duplicates_sample :
  remove_duplicates sample_path sample_fs
  = Ok {[ sample_path := [["a"; "1"]; ["b"; "2"]; ["c"; "3"]] ]}.
Proof. vm_compute. reflexivity. Qed.

(** C4: the deduplicator is idempotent: a second run, on the output of a
    first run, leaves a file identical to that output; the whole file
    system after the second run is the one after the first. *)
Theorem remove_duplicates_idempotent file_path fs fs' :
  remove_duplicates file_path fs = Ok fs' →
  remove_duplicates file_path fs' = Ok fs'.
Proof.
  intros Hrun. destruct (fs !! file_path) as [rows|] eqn:Hrows.
  - rewrite (remove_duplicates_closed _ _ _ Hrows) in Hrun.
    injection Hrun as <-.
    rewrite (remove_duplicates_closed _ _ (first_occurrences rows))
      by apply lookup_insert_eq.
    rewrite first_occurrences_idemp.
    rewrite delete_insert_ne by apply temp_of_ne.
    by rewrite delete_delete_eq, insert_insert_eq.
  - by rewrite remove_duplicates_missing in Hrun.
Qed.

Lemma remove_duplicates_idempotent_sample :
  remove_duplicates sample_path {[ sample_path := first_occurrences sample_rows ]}
  = Ok {[ sample_path := first_occurrences sample_rows ]}.
Proof.
  apply (remove_duplicates_idempotent sample_path sample_fs).
  vm_compute. reflexivity.
Defined.

(** C6: the output is written to a temporary path and only then put in
    place of the original: in whatever state a run is stopped, by a
    failure or an interruption, before the final replace has happened, the
    content of the file at [file_path] is what it was; until then nothing
    but the temporary path is written. *)
Theorem original_intact_until_replaced file_path fs n :
  ph (run file_path n (initial fs)) ≠ Finished →
  files (run file_path n (initial fs)) !! file_path = fs !! file_path ∧
  ∀ path, path ≠ temp_of file_path →
          files (run file_path n (initial fs)) !! path = fs !! path.
Proof.
  intros Hph.
  assert (∀ path, path ≠ temp_of file_path →
            files (run file_path n (initial fs)) !! path = fs !! path) as Hframe
    by (intros path Hpath; by apply (run_frame file_path path n (initial fs))).
  split; [|done]. apply Hframe.
  intros Heq. by apply (temp_of_ne file_path).
Qed.

Lemma original_intact_until_replaced_sample :
  files (run sample_path 5 (initial sample_fs)) !! sample_path
    = sample_fs !! sample_path ∧
  ∀ path, path ≠ temp_of sample_path →
          files (run sample_path 5 (initial sample_fs)) !! path
          = sample_fs !! path.
Proof.
  apply (original_intact_until_replaced sample_path sample_fs 5).
  vm_compute. discriminate.
Defined.

(** After five steps the sample run has written two rows to the temporary
    file and the original file is whole. *)
Lemma run_sample_stopped :
  run sample_path 5 (initial sample_fs)
  = State Copying 3 {[ "a,1"; "b,2" ]}
          {[ sample_path := sample_rows;
             temp_of sample_path := [["a"; "1"]; ["b"; "2"]] ]}.
Proof. vm_compute. reflexivity. Qed.

(** C7: two different rows whose fields rejoin to the same text exist, one
    having a field that contains the delimiter, and the deduplicator drops
    the second as a duplicate of the first. *)
Theorem delimiter_collision_drops_row :
  ∃ row1 row2 : Row,
    row1 ≠ row2 ∧
    line_of row1 = line_of row2 ∧
    ∀ file_path (fs : file_system),
      remove_duplicates file_path (<[file_path := [row1; row2]]> fs)
      = Ok (<[file_path := [row1]]> (delete (temp_of file_path) fs)).
Proof.
  exists ["a,b"], ["a"; "b"]. split; [done|]. split; [done|].
  intros file_path fs.
  rewrite (remove_duplicates_closed _ _ [["a,b"]; ["a"; "b"]])
    by apply lookup_insert_eq.
  rewrite delete_insert_ne by apply temp_of_ne.
  by rewrite insert_insert_eq.
Qed.

End remove_duplicates_facts.

(** ** Loops that may raise *)

Section for_each_facts.
Context {S A : Type} (body : S → A → result S).

Lemma for_each_app (xs ys : list A) : ∀ st,
  for_each body st (xs ++ ys) = (st ←! for_each body st xs; for_each body st ys).
Proof.
  induction xs as [|x xs IH]; intros st; simpl; [done|].
  destruct (body st x); simpl; [apply IH | done].
Qed.

(** A loop whose body raises nothing but [e] raises nothing but [e]. *)
Lemma for_each_raise (e : exn) (xs : list A) : ∀ st e',
  (∀ st x e', body st x = Raise e' → e' = e) →
  for_each body st xs = Raise e' → e' = e.
Proof.
  induction xs as [|x xs IH]; intros st e' Hbody; simpl; [done|].
  destruct (body st x) eqn:Hx; simpl.
  - by apply IH.
  - intros [= <-]. by apply (Hbody st x).
Qed.

End for_each_facts.

(** ** search_files.py *)

Section search_csv_files_facts.
Import SearchFiles.
Implicit Types (fieldnames row : Row) (rows data : File) (d : record).
Implicit Types (directory : list (string * File)) (results : list record).
Implicit Types (postal_code key : string).

(** *** Keys of a [DictReader] row *)

Lemma dict_zip_keys fieldnames : ∀ row d key,
  is_Some (foldl (λ d kv, <[Some kv.1 := VStr kv.2]> d) d (zip fieldnames row)
             !! Some key)
  ↔ is_Some (d !! Some key) ∨ key ∈ take (length row) fieldnames.
Proof.
  induction fieldnames as [|name fieldnames IH]; intros row d key; simpl.
  - rewrite take_nil, elem_of_nil. tauto.
  - destruct row as [|field row]; simpl.
    + rewrite elem_of_nil. tauto.
    + rewrite IH, elem_of_cons, lookup_insert_is_Some.
      destruct (decide (name = key)) as [->|Hne]; [tauto|].
      split.
      * intros [[[=]|[_ ?]]|?]; tauto.
      * intros [?|[->|?]]; [|done|tauto]. left. right. split; [congruence|done].
Qed.

Lemma fill_missing_keys names : ∀ d key,
  is_Some (foldl (λ d name, <[Some name := VNone]> d) d names !! Some key)
  ↔ is_Some (d !! Some key) ∨ key ∈ names.
Proof.
  induction names as [|name names IH]; intros d key; simpl.
  - rewrite elem_of_nil. tauto.
  - rewrite IH, elem_of_cons, lookup_insert_is_Some.
    destruct (decide (name = key)) as [->|Hne]; [tauto|].
    split.
    + intros [[[=]|[_ ?]]|?]; tauto.
    + intros [?|[->|?]]; [|done|tauto]. left. right. split; [congruence|done].
Qed.

(** The field names are exactly the string keys of every row. *)
Lemma make_record_keys fieldnames row key :
  is_Some (make_record fieldnames row !! Some key) ↔ key ∈ fieldnames.
Proof.
  unfold make_record, dict_zip.
  destruct (decide (length fieldnames < length row)) as [Hlt|Hge].
  - rewrite lookup_insert_ne by done.
    rewrite dict_zip_keys, lookup_empty, take_ge by lia.
    split; [intros [[? [=]]|?]; done | tauto].
  - destruct (decide (length row < length fieldnames)) as [Hlt|Hge'].
    + rewrite fill_missing_keys, dict_zip_keys, lookup_empty.
      rewrite <- (take_drop (length row) fieldnames) at 3.
      rewrite elem_of_app.
      split; [intros [[[? [=]]|?]|?]; tauto | tauto].
    + rewrite dict_zip_keys, lookup_empty, take_ge by lia.
      split; [intros [[? [=]]|?]; done | tauto].
Qed.

(** With distinct field names, a field is found under the name of its
    column. *)
Lemma dict_zip_other fieldnames : ∀ row d key,
  key ∉ fieldnames →
  foldl (λ d kv, <[Some kv.1 := VStr kv.2]> d) d (zip fieldnames row) !! Some key
  = d !! Some key.
Proof.
  induction fieldnames as [|name fieldnames IH]; intros row d key Hkey; [done|].
  destruct row as [|field row]; [done|].
  apply not_elem_of_cons in Hkey as [Hne Hkey]. simpl.
  rewrite IH by done. apply lookup_insert_ne. congruence.
Qed.

Lemma fill_missing_other names : ∀ d key,
  key ∉ names →
  foldl (λ d name, <[Some name := VNone]> d) d names !! Some key = d !! Some key.
Proof.
  induction names as [|name names IH]; intros d key Hkey; [done|].
  apply not_elem_of_cons in Hkey as [Hne Hkey]. simpl.
  rewrite IH by done. apply lookup_insert_ne. congruence.
Qed.

Lemma dict_zip_lookup fieldnames : ∀ row d i key field,
  NoDup fieldnames →
  fieldnames !! i = Some key → row !! i = Some field →
  foldl (λ d kv, <[Some kv.1 := VStr kv.2]> d) d (zip fieldnames row) !! Some key
  = Some (VStr field).
Proof.
  induction fieldnames as [|name fieldnames IH];
    intros row d i key field Hnd Hkey Hfield; [done|].
  destruct row as [|field0 row]; [done|].
  apply NoDup_cons in Hnd as [Hname Hnd].
  destruct i as [|i]; simpl in *.
  - injection Hkey as ->. injection Hfield as ->.
    rewrite dict_zip_other by done. apply lookup_insert_eq.
  - by eapply IH.
Qed.

Lemma make_record_lookup fieldnames row i key field :
  NoDup fieldnames →
  fieldnames !! i = Some key → row !! i = Some field →
  make_record fieldnames row !! Some key = Some (VStr field).
Proof.
  intros Hnd Hkey Hfield. unfold make_record, dict_zip.
  repeat case_decide.
  - rewrite lookup_insert_ne by done. by eapply dict_zip_lookup.
  - rewrite fill_missing_other; [by eapply dict_zip_lookup|].
    apply lookup_lt_Some in Hfield.
    rewrite <- (take_drop (length row) fieldnames) in Hnd.
    apply NoDup_app in Hnd as (_ & Hdisj & _). apply Hdisj.
    apply list_elem_of_lookup. exists i. by rewrite lookup_take_lt.
  - by eapply dict_zip_lookup.
Qed.

Lemma DictReader_keys fieldnames data key :
  Forall (λ d, is_Some (d !! Some key) ↔ key ∈ fieldnames)
         (DictReader (fieldnames :: data)).
Proof.
  simpl. apply Forall_fmap, Forall_forall. intros row _. simpl.
  apply make_record_keys.
Qed.

(** *** The search loops *)

Lemma for_each_check_row postal_code (rows : list record) : ∀ results,
  Forall (λ d, is_Some (d !! Some "postal_code")) rows →
  for_each (check_row postal_code) results rows
  = Ok (results ++ filter (matches postal_code) rows).
Proof.
  induction rows as [|d rows IH]; intros results Hkeys; simpl.
  - by rewrite app_nil_r.
  - apply Forall_cons in Hkeys as [[v Hv] Hkeys].
    unfold check_row at 1. rewrite Hv, filter_cons.
    destruct (decide (v = VStr postal_code)) as [->|Hne]; simpl.
    + rewrite decide_True by done. rewrite IH by done.
      by rewrite <- app_assoc.
    + rewrite decide_False by (unfold matches; congruence). by apply IH.
Qed.

Lemma search_file_ok postal_code results (entry : string * File) :
  (is_csv entry →
   Forall (λ d, is_Some (d !! Some "postal_code")) (DictReader entry.2)) →
  search_file postal_code results entry
  = Ok (results ++ matching_records [entry] postal_code).
Proof.
  intros Hkeys. unfold search_file, matching_records. simpl.
  rewrite app_nil_r.
  destruct (endswith entry.1 ".csv") eqn:Hcsv.
  - by apply for_each_check_row, Hkeys.
  - by rewrite app_nil_r.
Qed.

Lemma matching_records_cons entry directory postal_code :
  matching_records (entry :: directory) postal_code
  = matching_records [entry] postal_code ++ matching_records directory postal_code.
Proof. unfold matching_records. simpl. by rewrite app_nil_r. Qed.

Lemma search_csv_files_ok postal_code directory : ∀ results,
  Forall (λ entry, is_csv entry →
            Forall (λ d, is_Some (d !! Some "postal_code")) (DictReader entry.2))
         directory →
  for_each (search_file postal_code) results directory
  = Ok (results ++ matching_records directory postal_code).
Proof.
  induction directory as [|entry directory IH]; intros results Hkeys.
  - simpl. by rewrite app_nil_r.
  - apply Forall_cons in Hkeys as [Hentry Hkeys].
    rewrite matching_records_cons, app_assoc.
    cbn [for_each]. rewrite (search_file_ok _ _ _ Hentry).
    cbn [bind]. by apply IH.
Qed.

(** *** Failures *)

Lemma check_row_raise postal_code results d e :
  check_row postal_code results d = Raise e → e = KeyError "postal_code".
Proof.
  unfold check_row. destruct (d !! Some "postal_code") as [v|].
  - by case_decide.
  - by intros [= <-].
Qed.

Lemma search_file_raise postal_code results (entry : string * File) e :
  search_file postal_code results entry = Raise e → e = KeyError "postal_code".
Proof.
  unfold search_file. destruct (endswith entry.1 ".csv"); [|done].
  apply for_each_raise. intros ???. apply check_row_raise.
Qed.

(** The first row without the key stops the loop. *)
Lemma for_each_check_row_missing postal_code (rows : list record) results :
  rows ≠ [] →
  Forall (λ d, d !! Some "postal_code" = None) rows →
  for_each (check_row postal_code) results rows = Raise (KeyError "postal_code").
Proof.
  destruct rows as [|d rows]; [done|]. intros _ [Hd _]%Forall_cons.
  simpl. unfold check_row. by rewrite Hd.
Qed.

Lemma search_file_missing postal_code results name fieldnames data row :
  endswith name ".csv" = true →
  "postal_code" ∉ fieldnames →
  row ∈ data → row ≠ [] →
  search_file postal_code results (name, fieldnames :: data)
  = Raise (KeyError "postal_code").
Proof.
  intros Hcsv Hcol Hrow Hblank. unfold search_file. simpl. rewrite Hcsv.
  apply for_each_check_row_missing.
  - intros Hnil%fmap_nil_inv.
    assert (row ∈ filter (λ row, row ≠ []) data) as Hin
      by (by apply list_elem_of_filter).
    rewrite Hnil in Hin. by apply elem_of_nil in Hin.
  - apply Forall_fmap, Forall_forall. intros row' _. simpl.
    apply eq_None_not_Some. by rewrite make_record_keys.
Qed.

(** *** Properties of [search_csv_files] *)

(** C5: when every CSV file of the directory has a [postal_code] column,
    the result is exactly the records of those files whose [postal_code]
    field is the target string itself (string equality, so that case
    matters and nothing is normalised), by file in listing order and then
    by row; no match, and in particular an empty directory, gives the
    empty result. *)
Theorem search_csv_files_exact directory postal_code :
  (∀ entry, entry ∈ directory → is_csv entry → has_postal_code_column entry.2) →
  search_csv_files directory postal_code
    = Ok (matching_records directory postal_code) ∧
  (∀ d, d ∈ matching_records directory postal_code ↔
        ∃ entry, entry ∈ directory ∧ is_csv entry ∧
                 d ∈ DictReader entry.2 ∧
                 d !! Some "postal_code" = Some (VStr postal_code)) ∧
  ((∀ entry d, entry ∈ directory → is_csv entry → d ∈ DictReader entry.2 →
               d !! Some "postal_code" ≠ Some (VStr postal_code)) →
   search_csv_files directory postal_code = Ok []) ∧
  search_csv_files [] postal_code = Ok [].
Proof.
  intros Hcols.
  assert (search_csv_files directory postal_code
          = Ok (matching_records directory postal_code)) as Hres.
  { unfold search_csv_files. rewrite search_csv_files_ok; [done|].
    apply Forall_forall. intros entry Hentry Hcsv.
    destruct (Hcols entry Hentry Hcsv) as (fieldnames & data & -> & Hcol).
    eapply Forall_impl; [apply (DictReader_keys _ _ "postal_code")|].
    simpl. intros d Hd. by apply Hd. }
  assert (∀ d, d ∈ matching_records directory postal_code ↔
        ∃ entry, entry ∈ directory ∧ is_csv entry ∧
                 d ∈ DictReader entry.2 ∧
                 d !! Some "postal_code" = Some (VStr postal_code)) as Hmem.
  { intros d. unfold matching_records. rewrite list_elem_of_bind.
    split.
    - intros (entry & Hd & Hentry). exists entry.
      destruct (endswith entry.1 ".csv") eqn:Hcsv; [|by apply elem_of_nil in Hd].
      apply list_elem_of_filter in Hd as [Hm Hd]. done.
    - intros (entry & Hentry & Hcsv & Hd & Hm). exists entry.
      split; [|done]. rewrite Hcsv. by apply list_elem_of_filter. }
  split; [done|]. split; [done|]. split; [|done].
  intros Hnone. rewrite Hres. f_equal.
  destruct (matching_records directory postal_code) as [|d ds]; [done|].
  exfalso. destruct (proj1 (Hmem d)) as (entry & ? & ? & ? & ?); [left|].
  by eapply Hnone.
Qed.

(** On the sample directory the search for [6369CW] returns the one record
    with that postal code, and not the one spelled [6369cw]. *)
Lemma search_sample_directory :
  search_csv_files sample_directory "6369CW"
  = Ok [ {[ Some "postal_code" := VStr "6369CW";
            Some "city" := VStr "Simpelveld" ]} ].
Proof. vm_compute. reflexivity. Qed.

Lemma search_csv_files_exact_sample :
  search_csv_files sample_directory "6369CW"
    = Ok (matching_records sample_directory "6369CW") ∧
  (∀ d, d ∈ matching_records sample_directory "6369CW" ↔
        ∃ entry, entry ∈ sample_directory ∧ is_csv entry ∧
                 d ∈ DictReader entry.2 ∧
                 d !! Some "postal_code" = Some (VStr "6369CW")) ∧
  ((∀ entry d, entry ∈ sample_directory → is_csv entry → d ∈ DictReader entry.2 →
               d !! Some "postal_code" ≠ Some (VStr "6369CW")) →
   search_csv_files sample_directory "6369CW" = Ok []) ∧
  search_csv_files [] "6369CW" = Ok [].
Proof.
  apply (search_csv_files_exact sample_directory "6369CW").
  intros entry Hentry Hcsv. unfold sample_directory in Hentry.
  repeat (apply elem_of_cons in Hentry as [-> | Hentry]).
  - eexists _, _. split; [reflexivity|]. simpl. left.
  - eexists _, _. split; [reflexivity|]. simpl. right. left.
  - vm_compute in Hcsv. discriminate.
  - by apply elem_of_nil in Hentry.
Defined.

(** C8, as stated, fails: a CSV file without a [postal_code] column and
    without data rows is passed over in silence. *)
Lemma header_only_file_passes :
  ¬ (∀ directory postal_code,
       (∃ entry, entry ∈ directory ∧ is_csv entry ∧
                 ¬ has_postal_code_column entry.2) →
       ∃ e, search_csv_files directory postal_code = Raise e).
Proof.
  intros Hclaim.
  destruct (Hclaim header_only_directory "6369CW") as [e He].
  - exists ("cities.csv", [["city"; "country"]]).
    split; [left|]. split; [reflexivity|].
    intros (fieldnames & data & [= <- <-] & Hcol).
    by repeat (apply elem_of_cons in Hcol as [?|Hcol]; [done|]);
       apply elem_of_nil in Hcol.
  - vm_compute in He. discriminate.
Qed.

(** C8, amended: the searcher fails with a missing-key error for every
    directory with a CSV file that lacks a [postal_code] column and has a
    data row that is not blank. *)
Theorem search_csv_files_missing_column
    directory postal_code name fieldnames data row :
  (name, fieldnames :: data) ∈ directory →
  endswith name ".csv" = true →
  "postal_code" ∉ fieldnames →
  row ∈ data → row ≠ [] →
  search_csv_files directory postal_code = Raise (KeyError "postal_code").
Proof.
  intros Hentry Hcsv Hcol Hrow Hblank.
  apply list_elem_of_split in Hentry as (before & after & ->).
  unfold search_csv_files. rewrite for_each_app.
  destruct (for_each (search_file postal_code) [] before) as [results|e] eqn:Hbefore.
  - simpl. by rewrite (search_file_missing _ _ _ _ _ row).
  - simpl. f_equal. revert Hbefore. apply for_each_raise.
    intros ???. apply search_file_raise.
Qed.

Lemma search_csv_files_missing_column_sample :
  search_csv_files missing_column_directory "6369CW"
  = Raise (KeyError "postal_code").
Proof.
  apply (search_csv_files_missing_column missing_column_directory "6369CW"
           "cities.csv" ["city"; "country"] [["Heerlen"; "NL"]] ["Heerlen"; "NL"]).
  - unfold missing_column_directory. right. left.
  - reflexivity.
  - intros Hcol.
    by repeat (apply elem_of_cons in Hcol as [?|Hcol]; [done|]);
       apply elem_of_nil in Hcol.
  - left.
  - done.
Defined.

End search_csv_files_facts.

(** ** split_csv.py *)

Section split_csv_facts.
Import SplitCsv.
Implicit Types (fs : file_system) (rows data read : File) (row headers : Row).
Implicit Types (s : state) (chunks : list File) (output_folder : string).

(** *** Part paths *)

Lemma part_name_inj i j : part_name i = part_name j → i = j.
Proof.
  unfold part_name. intros Heq%(inj (String.app "part_")).
  apply string_app_inj_r in Heq. by apply (inj pretty).
Qed.

Lemma part_path_inj output_folder i j :
  part_path output_folder i = part_path output_folder j → i = j.
Proof.
  unfold part_path, os_path_join.
  change (String.prefix "/" (part_name i)) with false.
  change (String.prefix "/" (part_name j)) with false.
  cbv iota. destruct (bool_decide _ || _).
  - intros Heq%(inj (String.app output_folder)). by apply part_name_inj.
  - intros Heq%(inj (String.app output_folder)).
    apply (inj (String.app "/")) in Heq. by apply part_name_inj.
Qed.

(** *** The loop keeps its invariant *)

Section loop.
Context (output_folder : string) (headers : Row) (max_lines : Z) (fs : file_system).
Hypothesis max_lines_pos : (1 ≤ max_lines)%Z.

Local Abbreviation inv := (split_inv output_folder headers max_lines fs).
Local Abbreviation part := (part_path output_folder).

Lemma split_inv_start : inv [] (State 0 0 None fs) [].
Proof.
  split; simpl; try done.
  lia.
Qed.

(** Opening a part, writing the header and the first row. *)
Lemma new_part_files (files : file_system) path row :
  writerow path row (writerow path headers (open_write path files))
  = <[path := [headers; row]]> files.
Proof.
  unfold open_write.
  rewrite (writerow_insert _ path [] headers) by apply lookup_insert_eq.
  rewrite insert_insert_eq.
  rewrite (writerow_insert _ path [headers] row) by apply lookup_insert_eq.
  by rewrite insert_insert_eq.
Qed.

(** A row that arrives when the count is zero starts a new part. *)
Lemma write_row_rotate read s chunks row :
  inv read s chunks →
  current_line_count s = 0 →
  ∃ s', write_row output_folder headers max_lines s row = Ok s' ∧
        inv (read ++ [row]) s' (chunks ++ [[row]]).
Proof.
  intros [Hconcat Hcount Hfiles Hframe Hsizes Htotal Hbound Hcur Hstart] Hzero.
  destruct s as [fc clc cur fls]. simpl in *. subst clc.
  eexists. split.
  { unfold write_row, rotate. simpl. rewrite new_part_files. reflexivity. }
  split; simpl.
  - by rewrite concat_app, Hconcat.
  - rewrite length_app. simpl. lia.
  - intros i chunk [[Hi Hchunk]|[-> <-]]%lookup_snoc_Some.
    + rewrite lookup_insert_ne; [by apply Hfiles|].
      intros Heq%part_path_inj. lia.
    + rewrite Hcount. apply lookup_insert_eq.
  - intros path Hpath. rewrite lookup_insert_ne.
    + apply Hframe. intros i Hi. apply Hpath. lia.
    + intros <-. by apply (Hpath fc); [lia|].
  - intros i chunk [[Hi Hchunk]|[-> <-]]%lookup_snoc_Some.
    + rewrite (Hsizes i chunk Hchunk).
      rewrite decide_False by (by intros [_ ?]).
      by rewrite decide_False by (intros [? _]; lia).
    + simpl. rewrite Hcount.
      destruct (decide (max_lines ≤ Z.of_nat 1)%Z).
      * rewrite decide_False by (by intros [_ ?]). lia.
      * by rewrite decide_True.
  - rewrite length_app. simpl length.
    rewrite decide_True in Htotal by done.
    destruct (decide (max_lines ≤ Z.of_nat 1)%Z); cbv iota.
    + rewrite decide_True by done. lia.
    + rewrite decide_False by done. lia.
  - destruct (decide (max_lines ≤ Z.of_nat 1)%Z); cbv iota; lia.
  - done.
  - done.
Qed.

(** A row that arrives when the count is not zero goes to the part that
    is being filled. *)
Lemma write_row_continue read s chunks chunk row :
  inv read s (chunks ++ [chunk]) →
  current_line_count s ≠ 0 →
  ∃ s', write_row output_folder headers max_lines s row = Ok s' ∧
        inv (read ++ [row]) s' (chunks ++ [chunk ++ [row]]).
Proof.
  intros [Hconcat Hcount Hfiles Hframe Hsizes Htotal Hbound Hcur Hstart] Hpos.
  destruct s as [fc clc cur fls]. simpl in *.
  rewrite length_app in Hcount. simpl in Hcount.
  assert (fc = S (length chunks)) as -> by lia. clear Hcount Hstart.
  rewrite decide_False in Hcur by done. subst cur.
  rewrite decide_False in Htotal by done.
  pose proof (Hfiles (length chunks) chunk) as Hlast.
  rewrite list_lookup_middle in Hlast by done. specialize (Hlast eq_refl).
  pose proof (Hsizes (length chunks) chunk) as Hsize.
  rewrite list_lookup_middle in Hsize by done. specialize (Hsize eq_refl).
  rewrite decide_True in Hsize by done.
  eexists. split.
  { unfold write_row, rotate. simpl. rewrite decide_False by done. simpl.
    rewrite (writerow_insert _ _ _ _ Hlast). reflexivity. }
  split; simpl.
  - rewrite <- Hconcat, !concat_app. simpl.
    by rewrite !app_nil_r, app_assoc.
  - rewrite length_app. simpl. lia.
  - intros i c [[Hi Hc]|[-> <-]]%lookup_snoc_Some.
    + rewrite lookup_insert_ne.
      * apply Hfiles. by rewrite lookup_app_l.
      * intros Heq%part_path_inj. lia.
    + apply lookup_insert_eq.
  - intros path Hpath. rewrite lookup_insert_ne.
    + by apply Hframe.
    + intros <-. by apply (Hpath (length chunks)); [lia|].
  - intros i c [[Hi Hc]|[-> <-]]%lookup_snoc_Some.
    + rewrite (Hsizes i c) by (by rewrite lookup_app_l).
      rewrite decide_False by (intros [? _]; lia).
      by rewrite decide_False by (intros [? _]; lia).
    + rewrite length_app. simpl length.
      destruct (decide (max_lines ≤ Z.of_nat (S clc))%Z).
      * rewrite decide_False by (by intros [_ ?]). lia.
      * rewrite decide_True by done. lia.
  - rewrite length_app. simpl length.
    destruct (decide (max_lines ≤ Z.of_nat (S clc))%Z); cbv iota.
    + rewrite decide_True by done. lia.
    + rewrite decide_False by done. lia.
  - destruct (decide (max_lines ≤ Z.of_nat (S clc))%Z); cbv iota; lia.
  - done.
  - done.
Qed.

(** Every row is written, and the invariant is kept. *)
Lemma write_row_inv read s chunks row :
  inv read s chunks →
  ∃ s' chunks', write_row output_folder headers max_lines s row = Ok s' ∧
                inv (read ++ [row]) s' chunks'.
Proof.
  intros Hinv. destruct (decide (current_line_count s = 0)) as [Hzero|Hpos].
  - destruct (write_row_rotate _ _ _ row Hinv Hzero) as (s' & ? & ?). eauto.
  - destruct chunks as [|chunk chunks _] using rev_ind.
    + exfalso. apply Hpos, (inv_start _ _ _ _ _ _ _ Hinv).
      by rewrite <- (inv_count _ _ _ _ _ _ _ Hinv).
    + destruct (write_row_continue _ _ _ _ row Hinv Hpos) as (s' & ? & ?). eauto.
Qed.

Lemma for_each_write_row_inv rows : ∀ read s chunks,
  inv read s chunks →
  ∃ s' chunks',
    for_each (write_row output_folder headers max_lines) s rows = Ok s' ∧
    inv (read ++ rows) s' chunks'.
Proof.
  induction rows as [|row rows IH]; intros read s chunks Hinv; simpl.
  - exists s, chunks. by rewrite app_nil_r.
  - destruct (write_row_inv _ _ _ row Hinv) as (s1 & chunks1 & -> & Hinv1).
    simpl. rewrite (cons_middle row read rows), app_assoc. by eapply IH.
Qed.

End loop.

(** Past the creation of the folder, the run is the loop over the data
    rows. *)
Lemma split_csv_loop headers data output_folder (max_lines : Z) fs :
  output_folder ≠ "" →
  split_csv (headers :: data) output_folder max_lines fs
  = for_each (write_row output_folder headers max_lines) (State 0 0 None fs) data.
Proof.
  intros Hfolder. unfold split_csv, ensure_folder.
  by rewrite decide_False by done.
Qed.

(** The empty path cannot be created: nothing is read and nothing is
    written. *)
Lemma split_csv_no_folder source (max_lines : Z) fs :
  split_csv source "" max_lines fs = Raise (FileNotFoundError "").
Proof. reflexivity. Qed.

(** The run on a source with a header, and what it leaves. *)
Lemma split_csv_inv headers data output_folder max_lines fs :
  output_folder ≠ "" →
  (1 ≤ max_lines)%Z →
  ∃ s chunks,
    split_csv (headers :: data) output_folder max_lines fs = Ok s ∧
    split_inv output_folder headers max_lines fs data s chunks.
Proof.
  intros Hfolder Hmax. rewrite split_csv_loop by done.
  apply (for_each_write_row_inv output_folder headers max_lines fs Hmax data [] _ []).
  by apply split_inv_start.
Qed.

(** *** Reading the parts back *)

Lemma split_inv_data_rows output_folder headers max_lines fs data s chunks i chunk :
  split_inv output_folder headers max_lines fs data s chunks →
  chunks !! i = Some chunk →
  data_rows output_folder (files s) (S i) = chunk.
Proof.
  intros Hinv Hchunk. unfold data_rows.
  by rewrite (inv_files _ _ _ _ _ _ _ Hinv i chunk Hchunk).
Qed.

Lemma split_inv_parts output_folder headers max_lines fs data s chunks :
  split_inv output_folder headers max_lines fs data s chunks →
  data_rows output_folder (files s) <$> part_numbers s = chunks.
Proof.
  intros Hinv. apply list_eq. intros i. unfold part_numbers.
  rewrite list_lookup_fmap.
  destruct (decide (i < file_count s)) as [Hlt|Hge].
  - rewrite lookup_seq_lt by done. simpl.
    destruct (lookup_lt_is_Some_2 chunks i) as [chunk Hchunk];
      [by rewrite (inv_count _ _ _ _ _ _ _ Hinv)|].
    by rewrite Hchunk, (split_inv_data_rows _ _ _ _ _ _ _ _ _ Hinv Hchunk).
  - rewrite lookup_seq_ge by lia. simpl. symmetry.
    apply lookup_ge_None_2. rewrite (inv_count _ _ _ _ _ _ _ Hinv). lia.
Qed.

Lemma split_inv_part output_folder headers max_lines fs data s chunks i :
  split_inv output_folder headers max_lines fs data s chunks →
  i ∈ part_numbers s →
  ∃ j chunk, i = S j ∧ chunks !! j = Some chunk ∧
             files s !! part_path output_folder i = Some (headers :: chunk) ∧
             data_rows output_folder (files s) i = chunk.
Proof.
  intros Hinv [Hlo Hhi]%elem_of_seq.
  destruct i as [|j]; [lia|].
  destruct (lookup_lt_is_Some_2 chunks j) as [chunk Hchunk];
    [rewrite (inv_count _ _ _ _ _ _ _ Hinv); lia|].
  exists j, chunk. split; [done|]. split; [done|].
  split; [by apply (inv_files _ _ _ _ _ _ _ Hinv)|].
  by eapply split_inv_data_rows.
Qed.

(** *** Properties of [split_csv] *)

(** C1: for a source with a header row and any data rows, and a maximum
    of at least one row per part, every data row is emitted exactly once:
    the data rows of the output files, taken in file-number order, are the
    data rows of the source in their order, and every output file begins
    with the header row.  The output files are the parts numbered from 1
    to the final [file_count]; no other path is written. *)
Theorem split_csv_emits_rows_once headers data output_folder max_lines fs :
  output_folder ≠ "" →
  (1 ≤ max_lines)%Z →
  ∃ s,
    split_csv (headers :: data) output_folder max_lines fs = Ok s ∧
    concat (data_rows output_folder (files s) <$> part_numbers s) = data ∧
    (∀ i, i ∈ part_numbers s →
          ∃ rows, files s !! part_path output_folder i = Some (headers :: rows)) ∧
    (∀ path, (∀ i, i ∈ part_numbers s → path ≠ part_path output_folder i) →
             files s !! path = fs !! path).
Proof.
  intros Hfolder Hmax.
  destruct (split_csv_inv headers data output_folder max_lines fs Hfolder Hmax)
    as (s & chunks & Hrun & Hinv).
  exists s. split; [done|]. split; [|split].
  - rewrite (split_inv_parts _ _ _ _ _ _ _ Hinv).
    apply (inv_concat _ _ _ _ _ _ _ Hinv).
  - intros i Hi.
    destruct (split_inv_part _ _ _ _ _ _ _ _ Hinv Hi) as (j & chunk & _ & _ & ? & _).
    by exists chunk.
  - intros path Hpath. apply (inv_frame _ _ _ _ _ _ _ Hinv).
    intros i Hi. apply Hpath. apply elem_of_seq. lia.
Qed.

Lemma split_csv_emits_rows_once_sample :
  ∃ s,
    split_csv (sample_headers :: sample_data) "./data_split" 2 ∅ = Ok s ∧
    concat (data_rows "./data_split" (files s) <$> part_numbers s) = sample_data ∧
    (∀ i, i ∈ part_numbers s →
          ∃ rows, files s !! part_path "./data_split" i
                  = Some (sample_headers :: rows)) ∧
    (∀ path, (∀ i, i ∈ part_numbers s → path ≠ part_path "./data_split" i) →
             files s !! path = (∅ : file_system) !! path).
Proof.
  apply (split_csv_emits_rows_once sample_headers sample_data "./data_split" 2 ∅).
  - discriminate.
  - lia.
Defined.

(** The arithmetic of the invariant: the number of parts and the fill of
    the last one are determined by the number of rows. *)
Lemma split_inv_exact output_folder headers max_lines fs data s chunks (k : nat) :
  (1 ≤ max_lines)%Z →
  split_inv output_folder headers max_lines fs data s chunks →
  1 ≤ k →
  Z.of_nat (length data) = (Z.of_nat k * max_lines)%Z →
  file_count s = k ∧ current_line_count s = 0.
Proof.
  intros Hmax Hinv Hk Hlen.
  pose proof (inv_total _ _ _ _ _ _ _ Hinv) as Htotal.
  pose proof (inv_bound _ _ _ _ _ _ _ Hinv) as Hbound.
  rewrite Hlen in Htotal.
  destruct (decide (current_line_count s = 0)) as [Hzero|Hpos].
  - split; [|done]. apply Nat2Z.inj. nia.
  - exfalso.
    assert (Z.of_nat (file_count s) ≤ Z.of_nat k ∨
            Z.of_nat k + 1 ≤ Z.of_nat (file_count s))%Z as [?|?] by lia; nia.
Qed.

Lemma split_inv_remainder output_folder headers max_lines fs data s chunks (k r : nat) :
  (1 ≤ max_lines)%Z →
  split_inv output_folder headers max_lines fs data s chunks →
  0 < r → (Z.of_nat r < max_lines)%Z →
  Z.of_nat (length data) = (Z.of_nat k * max_lines + Z.of_nat r)%Z →
  file_count s = S k ∧ current_line_count s = r.
Proof.
  intros Hmax Hinv Hr Hrmax Hlen.
  pose proof (inv_total _ _ _ _ _ _ _ Hinv) as Htotal.
  pose proof (inv_bound _ _ _ _ _ _ _ Hinv) as Hbound.
  rewrite Hlen in Htotal.
  destruct (decide (current_line_count s = 0)) as [Hzero|Hpos].
  - exfalso.
    assert (Z.of_nat (file_count s) ≤ Z.of_nat k ∨
            Z.of_nat k + 1 ≤ Z.of_nat (file_count s))%Z as [?|?] by lia; nia.
  - assert (Z.of_nat (file_count s) = Z.of_nat k + 1)%Z as Hcount.
    { assert (Z.of_nat (file_count s) ≤ Z.of_nat k ∨
              Z.of_nat (file_count s) = Z.of_nat k + 1 ∨
              Z.of_nat k + 2 ≤ Z.of_nat (file_count s))%Z as [?|[?|?]] by lia;
        [nia | done | nia]. }
    split; [lia|]. apply Nat2Z.inj. nia.
Qed.

(** C2: with a maximum of [max_lines] rows, at least one, no output file
    holds more than [max_lines] data rows; a source of [k * max_lines]
    data rows, [k] at least one, gives exactly [k] files of [max_lines]
    data rows each, and none after them; a source of [k * max_lines + r]
    data rows, [r] between the two, gives exactly [k + 1] files, the last
    of which holds [r] data rows (and the others [max_lines]). *)
Theorem split_csv_part_sizes headers data output_folder max_lines fs :
  output_folder ≠ "" →
  (1 ≤ max_lines)%Z →
  ∃ s,
    split_csv (headers :: data) output_folder max_lines fs = Ok s ∧
    (∀ i, i ∈ part_numbers s →
       (Z.of_nat (length (data_rows output_folder (files s) i)) ≤ max_lines)%Z) ∧
    (∀ k : nat,
       1 ≤ k →
       Z.of_nat (length data) = (Z.of_nat k * max_lines)%Z →
       part_numbers s = seq 1 k ∧
       (∀ i, 1 ≤ i ≤ k →
          Z.of_nat (length (data_rows output_folder (files s) i)) = max_lines) ∧
       files s !! part_path output_folder (S k) = fs !! part_path output_folder (S k)) ∧
    (∀ k r : nat,
       0 < r → (Z.of_nat r < max_lines)%Z →
       Z.of_nat (length data) = (Z.of_nat k * max_lines + Z.of_nat r)%Z →
       part_numbers s = seq 1 (S k) ∧
       length (data_rows output_folder (files s) (S k)) = r ∧
       (∀ i, 1 ≤ i ≤ k →
          Z.of_nat (length (data_rows output_folder (files s) i)) = max_lines)).
Proof.
  intros Hfolder Hmax.
  destruct (split_csv_inv headers data output_folder max_lines fs Hfolder Hmax)
    as (s & chunks & Hrun & Hinv).
  pose proof (inv_bound _ _ _ _ _ _ _ Hinv) as Hbound.
  exists s. split; [done|]. split; [|split].
  - intros i Hi.
    destruct (split_inv_part _ _ _ _ _ _ _ _ Hinv Hi)
      as (j & chunk & -> & Hchunk & _ & ->).
    rewrite (inv_sizes _ _ _ _ _ _ _ Hinv j chunk Hchunk).
    case_decide; lia.
  - intros k Hk Hlen.
    destruct (split_inv_exact _ _ _ _ _ _ _ k Hmax Hinv Hk Hlen) as [Hcount Hzero].
    split; [by unfold part_numbers; rewrite Hcount|]. split.
    + intros i Hi.
      assert (i ∈ part_numbers s) as Hin
        by (apply elem_of_seq; rewrite Hcount; lia).
      destruct (split_inv_part _ _ _ _ _ _ _ _ Hinv Hin)
        as (j & chunk & -> & Hchunk & _ & ->).
      rewrite (inv_sizes _ _ _ _ _ _ _ Hinv j chunk Hchunk).
      by rewrite decide_False by (intros [_ ?]; done).
    + apply (inv_frame _ _ _ _ _ _ _ Hinv).
      intros i Hi Heq%part_path_inj. lia.
  - intros k r Hr Hrmax Hlen.
    destruct (split_inv_remainder _ _ _ _ _ _ _ k r Hmax Hinv Hr Hrmax Hlen)
      as [Hcount Hfill].
    split; [by unfold part_numbers; rewrite Hcount|]. split.
    + assert (S k ∈ part_numbers s) as Hin
        by (apply elem_of_seq; rewrite Hcount; lia).
      destruct (split_inv_part _ _ _ _ _ _ _ _ Hinv Hin)
        as (j & chunk & [= <-] & Hchunk & _ & ->).
      apply Nat2Z.inj.
      rewrite (inv_sizes _ _ _ _ _ _ _ Hinv k chunk Hchunk).
      rewrite decide_True by (split; [done|lia]). by rewrite Hfill.
    + intros i Hi.
      assert (i ∈ part_numbers s) as Hin
        by (apply elem_of_seq; rewrite Hcount; lia).
      destruct (split_inv_part _ _ _ _ _ _ _ _ Hinv Hin)
        as (j & chunk & -> & Hchunk & _ & ->).
      rewrite (inv_sizes _ _ _ _ _ _ _ Hinv j chunk Hchunk).
      by rewrite decide_False by (intros [? _]; lia).
Qed.

Lemma split_csv_part_sizes_sample :
  (∃ s,
     split_csv (sample_headers :: sample_data) "./data_split" 2 ∅ = Ok s ∧
     part_numbers s = [1; 2; 3] ∧
     length (data_rows "./data_split" (files s) 3) = 1 ∧
     (∀ i, 1 ≤ i ≤ 2 →
        Z.of_nat (length (data_rows "./data_split" (files s) i)) = 2%Z)) ∧
  (∃ s,
     split_csv (sample_headers :: take 4 sample_data) "./data_split" 2 ∅ = Ok s ∧
     part_numbers s = [1; 2] ∧
     (∀ i, 1 ≤ i ≤ 2 →
        Z.of_nat (length (data_rows "./data_split" (files s) i)) = 2%Z) ∧
     files s !! part_path "./data_split" 3 = None).
Proof.
  split.
  - destruct (split_csv_part_sizes sample_headers sample_data "./data_split" 2 ∅)
      as (s & Hrun & _ & _ & Hrem); [discriminate | lia |].
    destruct (Hrem 2 1) as (Hparts & Hlast & Hfull); [lia | lia | reflexivity |].
    exists s. auto.
  - destruct (split_csv_part_sizes sample_headers (take 4 sample_data)
                "./data_split" 2 ∅)
      as (s & Hrun & _ & Hexact & _); [discriminate | lia |].
    destruct (Hexact 2) as (Hparts & Hfull & Hnext); [lia | reflexivity |].
    exists s. auto.
Defined.

(** The scenario of the specification, computed: three parts, holding
    rows 1-2, 3-4 and 5 after the header. *)
Lemma split_csv_sample :
  split_csv sample_source "./data_split" 2 ∅
  = Ok (State 3 1 (Some "./data_split/part_3.csv")
          {[ "./data_split/part_1.csv" := [["id"; "name"]; ["1"; "a"]; ["2"; "b"]];
             "./data_split/part_2.csv" := [["id"; "name"]; ["3"; "c"]; ["4"; "d"]];
             "./data_split/part_3.csv" := [["id"; "name"]; ["5"; "e"]] ]}).
Proof. vm_compute. reflexivity. Qed.

(** C9: on an empty source file no header row can be read and the
    splitter fails, whatever the output folder is; this happens before any
    output file is opened, so none is produced.  The failure is that of
    [next(reader)], except for the empty folder path, which has already
    failed to be created. *)
Theorem split_csv_empty_source output_folder max_lines fs :
  split_csv [] output_folder max_lines fs
  = Raise (if decide (output_folder = "") then FileNotFoundError ""
           else StopIteration).
Proof.
  unfold split_csv, ensure_folder.
  by destruct (decide (output_folder = "")) as [->|Hfolder].
Qed.

(** C10: on a source that is a header row and nothing else the splitter,
    given an output folder that can be created, ends normally and has
    created no output file: no part was opened and the file system is as
    it was. *)
Theorem split_csv_header_only headers output_folder max_lines fs :
  output_folder ≠ "" →
  ∃ s,
    split_csv [headers] output_folder max_lines fs = Ok s ∧
    part_numbers s = [] ∧
    current_file s = None ∧
    files s = fs.
Proof. intros Hfolder. rewrite split_csv_loop by done. by eexists. Qed.

Lemma split_csv_header_only_sample :
  ∃ s,
    split_csv [sample_headers] "./data_split" 2 ∅ = Ok s ∧
    part_numbers s = [] ∧
    current_file s = None ∧
    files s = ∅.
Proof.
  apply (split_csv_header_only sample_headers "./data_split" 2 ∅).
  discriminate.
Defined.

End split_csv_facts.

(** * Further properties *)

(** ** remove_csv_dup.py: failures, clean-up, the machine *)

Section remove_duplicates_more.
Import RemoveCsvDup.
Implicit Types (fs : file_system) (rows earlier more : File) (row : Row).

Lemma first_occurrences_after_app rows : ∀ earlier more,
  first_occurrences_after earlier (rows ++ more)
  = first_occurrences_after earlier rows
      ++ first_occurrences_after (earlier ++ rows) more.
Proof.
  induction rows as [|row rows IH]; intros earlier more; simpl.
  - by rewrite app_nil_r.
  - rewrite IH, <- !app_assoc. simpl. done.
Qed.

(** X1: when the file does not exist the function raises [FileNotFoundError]
    for it, and a run, however far it is taken, has failed at its first
    step without creating the temporary file or touching anything. *)
Theorem remove_duplicates_missing_file file_path fs n :
  fs !! file_path = None →
  remove_duplicates file_path fs = Raise (FileNotFoundError file_path) ∧
  ph (run file_path (S n) (initial fs)) = Failed (FileNotFoundError file_path) ∧
  files (run file_path n (initial fs)) = fs.
Proof.
  intros Hnone. split; [by apply remove_duplicates_missing|].
  assert (step file_path (initial fs)
          = State (Failed (FileNotFoundError file_path)) 0 ∅ fs) as Hstep
    by (unfold step, open_read; simpl; by rewrite Hnone).
  split.
  - simpl. rewrite Hstep.
    by rewrite (run_failed _ _ _ (FileNotFoundError file_path)).
  - destruct n as [|n]; [done|]. simpl. rewrite Hstep.
    by rewrite (run_failed _ _ _ (FileNotFoundError file_path)).
Qed.

Lemma remove_duplicates_missing_file_sample :
  remove_duplicates "data/absent.csv" sample_fs
    = Raise (FileNotFoundError "data/absent.csv") ∧
  ph (run "data/absent.csv" 4 (initial sample_fs))
    = Failed (FileNotFoundError "data/absent.csv") ∧
  files (run "data/absent.csv" 3 (initial sample_fs)) = sample_fs.
Proof.
  apply (remove_duplicates_missing_file "data/absent.csv" sample_fs 3).
  reflexivity.
Defined.



(** X3: a file already at the temporary path is overwritten and then consumed
    by the replace: its content has no influence on the result, and it is
    gone afterwards. *)
Theorem remove_duplicates_stale_temp file_path fs (stale : File) :
  remove_duplicates file_path (<[temp_of file_path := stale]> fs)
  = remove_duplicates file_path fs.
Proof.
  destruct (fs !! file_path) as [rows|] eqn:Hrows.
  - rewrite (remove_duplicates_closed _ fs rows) by done.
    rewrite (remove_duplicates_closed _ _ rows)
      by (rewrite lookup_insert_ne by apply temp_of_ne; done).
    by rewrite delete_insert_eq.
  - rewrite (remove_duplicates_missing _ fs) by done.
    apply remove_duplicates_missing.
    by rewrite lookup_insert_ne by apply temp_of_ne.
Qed.

(** X4: rows appended to the input only append to the output: the output for
    [rows ++ more] is the output for [rows] followed by some of [more], in
    order. *)
Theorem remove_duplicates_append file_path fs rows more :
  ∃ out extra,
    remove_duplicates file_path (<[file_path := rows]> fs)
      = Ok (<[file_path := out]> (delete (temp_of file_path) fs)) ∧
    remove_duplicates file_path (<[file_path := rows ++ more]> fs)
      = Ok (<[file_path := out ++ extra]> (delete (temp_of file_path) fs)) ∧
    extra `sublist_of` more.
Proof.
  exists (first_occurrences rows), (first_occurrences_after rows more).
  split; [|split].
  - rewrite (remove_duplicates_closed _ _ rows) by apply lookup_insert_eq.
    rewrite delete_insert_ne by apply temp_of_ne.
    by rewrite insert_insert_eq.
  - rewrite (remove_duplicates_closed _ _ (rows ++ more)) by apply lookup_insert_eq.
    rewrite delete_insert_ne by apply temp_of_ne.
    rewrite insert_insert_eq. unfold first_occurrences.
    by rewrite first_occurrences_after_app.
  - apply first_occurrences_after_sublist.
Qed.

(** X5: a file whose rows have pairwise different canonical texts is written
    back as it is. *)
Theorem remove_duplicates_no_duplicates file_path fs rows :
  fs !! file_path = Some rows →
  NoDup (line_of <$> rows) →
  remove_duplicates file_path fs = Ok (delete (temp_of file_path) fs).
Proof.
  intros Hrows Hnd. rewrite (remove_duplicates_closed _ _ _ Hrows).
  unfold first_occurrences.
  rewrite first_occurrences_after_id;
    [|done|intros line _; simpl; apply not_elem_of_nil].
  f_equal. apply insert_id. by rewrite lookup_delete_ne by apply temp_of_ne.
Qed.

Lemma remove_duplicates_no_duplicates_sample :
  remove_duplicates sample_path {[ sample_path := [["a"; "1"]; ["b"; "2"]] ]}
  = Ok (delete (temp_of sample_path)
               ({[ sample_path := [["a"; "1"]; ["b"; "2"]] ]} : file_system)).
Proof.
  apply (remove_duplicates_no_duplicates sample_path _ [["a"; "1"]; ["b"; "2"]]).
  - reflexivity.
  - simpl. apply NoDup_cons. split.
    + intros Hin. apply list_elem_of_singleton in Hin. discriminate.
    + apply NoDup_singleton.
Defined.

(** X6: the first row of the file, the header of a CSV file, is always kept
    and stays first; every later row with the same canonical text is
    dropped. *)
Theorem remove_duplicates_keeps_first_row file_path fs row rows :
  fs !! file_path = Some (row :: rows) →
  ∃ fs' out,
    remove_duplicates file_path fs = Ok fs' ∧
    fs' !! file_path = Some (row :: out) ∧
    ∀ row', row' ∈ out → line_of row' ≠ line_of row.
Proof.
  intros Hrows. eexists _, (first_occurrences_after [row] rows).
  split; [by apply remove_duplicates_closed|].
  split; [by rewrite lookup_insert_eq|].
  intros row' Hin Heq.
  destruct (first_occurrences_after_fresh rows [row]) as [_ Hfresh].
  apply (Hfresh (line_of row')).
  - by apply list_elem_of_fmap_2.
  - rewrite Heq. simpl. left.
Qed.

Lemma remove_duplicates_keeps_first_row_sample :
  ∃ fs' out,
    remove_duplicates sample_path sample_fs = Ok fs' ∧
    fs' !! sample_path = Some (["a"; "1"] :: out) ∧
    ∀ row', row' ∈ out → line_of row' ≠ line_of ["a"; "1"].
Proof.
  apply (remove_duplicates_keeps_first_row sample_path sample_fs ["a"; "1"]
           [["b"; "2"]; ["a"; "1"]; ["c"; "3"]]).
  reflexivity.
Defined.

(** One step before the end the copy is complete in the temporary file
    and the replace is still to come. *)
Lemma run_before_replace file_path fs rows :
  fs !! file_path = Some rows →
  run file_path (length rows + 3) (initial fs) =
    State Replacing (length rows) (lines_of rows)
          (<[temp_of file_path := first_occurrences rows]> fs).
Proof.
  intros Hrows.
  replace (length rows + 3) with (2 + (length rows + 1)) by lia.
  rewrite (run_add _ 2). simpl run at 2. unfold step at 1 2. simpl.
  unfold open_read. rewrite Hrows. simpl.
  rewrite run_add.
  rewrite (run_copying file_path rows [] ∅)
    by (rewrite open_write_lookup_ne by apply temp_of_ne; done).
  change (∅ : gset string) with (lines_of []).
  rewrite (foldl_visit _ rows [] _ []) by apply lookup_insert_eq.
  unfold open_write. rewrite insert_insert_eq. simpl.
  unfold step. simpl.
  rewrite lookup_insert_ne by apply temp_of_ne. rewrite Hrows. simpl.
  by rewrite lookup_ge_None_2 by done.
Qed.

(** X7: the machine and the function agree: a run that is not stopped takes
    four steps more than the file has rows, not fewer, and ends finished
    with the file system the function returns. *)
Theorem run_reaches_result file_path fs rows :
  fs !! file_path = Some rows →
  ∃ fs', remove_duplicates file_path fs = Ok fs' ∧
         run file_path (length rows + 4) (initial fs)
         = State Finished (length rows) (lines_of rows) fs' ∧
         ∀ n, n < length rows + 4 →
              ph (run file_path n (initial fs)) ≠ Finished.
Proof.
  intros Hrows. eexists. split; [by apply remove_duplicates_closed|].
  split; [by apply run_completes_state|].
  intros n Hn Hfin.
  pose proof (run_before_replace _ _ _ Hrows) as Hbefore.
  replace (length rows + 3) with (n + (length rows + 3 - n)) in Hbefore by lia.
  rewrite run_add, (run_finished _ _ _ Hfin) in Hbefore.
  by rewrite Hbefore in Hfin.
Qed.

Lemma run_reaches_result_sample :
  ∃ fs', remove_duplicates sample_path sample_fs = Ok fs' ∧
         run sample_path (length sample_rows + 4) (initial sample_fs)
         = State Finished (length sample_rows) (lines_of sample_rows) fs' ∧
         ∀ n, n < length sample_rows + 4 →
              ph (run sample_path n (initial sample_fs)) ≠ Finished.
Proof.
  apply (run_reaches_result sample_path sample_fs sample_rows).
  reflexivity.
Defined.

Lemma run_finished_result_sample :
  remove_duplicates sample_path sample_fs
  = Ok (files (run sample_path 9 (initial sample_fs))).
Proof.
  apply (run_finished_result sample_path sample_fs 9).
  vm_compute. reflexivity.
Defined.

End remove_duplicates_more.

(** ** search_files.py: what is searched, what is returned, what fails *)

Section search_csv_files_more.
Import SearchFiles.
Implicit Types (fieldnames row : Row) (rows data : File) (d : record).
Implicit Types (directory : list (string * File)) (results : list record).
Implicit Types (postal_code key : string).

(** X9: an entry is searched exactly when its name is some stem followed by
    [.csv], in lower case. *)
Theorem is_csv_iff (entry : string * File) :
  is_csv entry ↔ ∃ stem, entry.1 = stem +:+ ".csv".
Proof. apply endswith_spec. Qed.

(** X10: entries whose name does not end in [.csv] are never opened: the
    search, result or failure, is that of the directory without them. *)
Theorem search_csv_files_skips_others directory postal_code :
  search_csv_files directory postal_code
  = search_csv_files
      (filter (λ entry, endswith entry.1 ".csv" = true) directory) postal_code.
Proof.
  unfold search_csv_files. generalize ([] : list record).
  induction directory as [|entry directory IH]; intros results; [done|].
  rewrite filter_cons. simpl.
  destruct (endswith entry.1 ".csv") eqn:Hcsv.
  - rewrite decide_True by done. simpl.
    unfold search_file at 1 3. rewrite Hcsv.
    destruct (for_each _ results (DictReader entry.2)); simpl; [apply IH|done].
  - rewrite decide_False by done.
    unfold search_file at 1. rewrite Hcsv. simpl. apply IH.
Qed.

(** *** Results carried over *)

Lemma for_each_check_row_shift postal_code (recs : list record) : ∀ results,
  for_each (check_row postal_code) results recs
  = (found ←! for_each (check_row postal_code) [] recs; Ok (results ++ found)).
Proof.
  induction recs as [|d recs IH]; intros results; simpl.
  - by rewrite app_nil_r.
  - unfold check_row at 1 3. destruct (d !! Some "postal_code") as [v|]; [|done].
    case_decide; simpl.
    + rewrite (IH (results ++ [d])), (IH [d]).
      destruct (for_each _ [] recs); simpl; [|done].
      by rewrite <- app_assoc.
    + apply IH.
Qed.

Lemma search_file_shift postal_code (entry : string * File) results :
  search_file postal_code results entry
  = (found ←! search_file postal_code [] entry; Ok (results ++ found)).
Proof.
  unfold search_file. destruct (endswith entry.1 ".csv").
  - apply for_each_check_row_shift.
  - simpl. by rewrite app_nil_r.
Qed.

Lemma for_each_search_file_shift postal_code directory : ∀ results,
  for_each (search_file postal_code) results directory
  = (found ←! for_each (search_file postal_code) [] directory;
     Ok (results ++ found)).
Proof.
  induction directory as [|entry directory IH]; intros results; simpl.
  - by rewrite app_nil_r.
  - rewrite (search_file_shift _ entry results).
    destruct (search_file postal_code [] entry) as [found|e]; simpl; [|done].
    rewrite (IH (results ++ found)), (IH found).
    destruct (for_each _ [] directory); simpl; [|done].
    by rewrite <- app_assoc.
Qed.

(** X11: searching two listings one after the other: the first failure wins,
    otherwise the results are those of the first followed by those of the
    second. *)
Theorem search_csv_files_app directory1 directory2 postal_code :
  search_csv_files (directory1 ++ directory2) postal_code
  = (found1 ←! search_csv_files directory1 postal_code;
     found2 ←! search_csv_files directory2 postal_code;
     Ok (found1 ++ found2)).
Proof.
  unfold search_csv_files. rewrite for_each_app.
  destruct (for_each _ [] directory1) as [found1|e]; simpl; [|done].
  apply for_each_search_file_shift.
Qed.

(** *** Whenever the search returns *)

Lemma for_each_check_row_inv postal_code (recs : list record) : ∀ results found,
  for_each (check_row postal_code) results recs = Ok found →
  found = results ++ filter (matches postal_code) recs.
Proof.
  induction recs as [|d recs IH]; intros results found; simpl.
  - intros [= <-]. by rewrite app_nil_r.
  - unfold check_row at 1. rewrite filter_cons.
    destruct (d !! Some "postal_code") as [v|] eqn:Hv; [|done].
    destruct (decide (v = VStr postal_code)) as [->|Hne]; simpl.
    + rewrite decide_True by done. intros ->%IH. by rewrite <- app_assoc.
    + rewrite decide_False by (unfold matches; congruence). apply IH.
Qed.

Lemma for_each_search_file_inv postal_code directory : ∀ results found,
  for_each (search_file postal_code) results directory = Ok found →
  found = results ++ matching_records directory postal_code.
Proof.
  induction directory as [|entry directory IH]; intros results found.
  - simpl. intros [= <-]. unfold matching_records. simpl. by rewrite app_nil_r.
  - rewrite matching_records_cons. cbn [for_each].
    destruct (search_file postal_code results entry) as [results'|e] eqn:Hentry;
      cbn [bind]; [|done].
    intros ->%IH. rewrite app_assoc. f_equal.
    unfold search_file in Hentry. unfold matching_records. simpl.
    rewrite app_nil_r.
    destruct (endswith entry.1 ".csv").
    + by apply for_each_check_row_inv in Hentry.
    + injection Hentry as <-. by rewrite app_nil_r.
Qed.

(** X12: without any assumption on the files: when the search returns, what it
    returns is exactly the matching records, in listing and row order. *)
Theorem search_csv_files_returns directory postal_code found :
  search_csv_files directory postal_code = Ok found →
  found = matching_records directory postal_code.
Proof. apply for_each_search_file_inv. Qed.

Lemma search_csv_files_returns_sample :
  [ ({[ Some "postal_code" := VStr "6369CW";
        Some "city" := VStr "Simpelveld" ]} : record) ]
  = matching_records sample_directory "6369CW".
Proof.
  apply (search_csv_files_returns sample_directory "6369CW").
  vm_compute. reflexivity.
Defined.

(** *** Why the search fails *)

Lemma for_each_check_row_raise postal_code (recs : list record) : ∀ results e,
  for_each (check_row postal_code) results recs = Raise e →
  ∃ d, d ∈ recs ∧ d !! Some "postal_code" = None.
Proof.
  induction recs as [|d recs IH]; intros results e; simpl; [done|].
  unfold check_row at 1.
  destruct (d !! Some "postal_code") as [v|] eqn:Hv.
  - intros Hrest.
    assert (∃ results', for_each (check_row postal_code) results' recs = Raise e)
      as [results' Hrest'] by (case_decide; simpl in Hrest; eauto).
    destruct (IH _ _ Hrest') as (d' & ? & ?). exists d'. split; [by right|done].
  - intros _. exists d. split; [left|done].
Qed.

(** X13: a missing-key failure has a culprit: when the search fails with
    [KeyError] for [postal_code], the listing has a searched file whose
    header lacks [postal_code] and which has a data row that is not
    blank. *)
Theorem search_csv_files_raises directory postal_code :
  search_csv_files directory postal_code = Raise (KeyError "postal_code") →
  ∃ name fieldnames data row,
    (name, fieldnames :: data) ∈ directory ∧
    endswith name ".csv" = true ∧
    ("postal_code" ∉ fieldnames) ∧
    row ∈ data ∧ row ≠ [].
Proof.
  unfold search_csv_files. generalize ([] : list record).
  induction directory as [|[name rows] directory IH]; intros results; [done|].
  cbn [for_each].
  destruct (search_file postal_code results (name, rows)) as [results'|e']
    eqn:Hentry; cbn [bind].
  - intros (name' & fieldnames & data & row & ? & ?)%IH.
    exists name', fieldnames, data, row. split; [by right|done].
  - intros _. unfold search_file in Hentry. simpl in Hentry.
    destruct (endswith name ".csv") eqn:Hcsv; [|done].
    apply for_each_check_row_raise in Hentry as (d & Hd & Hkey).
    destruct rows as [|fieldnames data]; [by apply elem_of_nil in Hd|].
    simpl in Hd. apply list_elem_of_fmap in Hd as (row & -> & Hrow).
    apply list_elem_of_filter in Hrow as [Hblank Hrow].
    exists name, fieldnames, data, row.
    split; [left|]. split; [done|]. split; [|done].
    intros Hcol.
    destruct (proj2 (make_record_keys fieldnames row "postal_code") Hcol)
      as [v Hv].
    congruence.
Qed.

Lemma search_csv_files_raises_sample :
  ∃ name fieldnames data row,
    (name, fieldnames :: data) ∈ missing_column_directory ∧
    endswith name ".csv" = true ∧
    ("postal_code" ∉ fieldnames) ∧
    row ∈ data ∧ row ≠ [].
Proof.
  apply (search_csv_files_raises missing_column_directory "6369CW").
  vm_compute. reflexivity.
Defined.

(** *** Rows that do not fit the header *)

Lemma fill_missing_in names : ∀ d key,
  key ∈ names →
  foldl (λ d name, <[Some name := VNone]> d) d names !! Some key = Some VNone.
Proof.
  induction names as [|name names IH]; intros d key Hkey;
    [by apply elem_of_nil in Hkey|].
  simpl. destruct (decide (key ∈ names)) as [Hin|Hout]; [by apply IH|].
  apply elem_of_cons in Hkey as [->|?]; [|done].
  rewrite fill_missing_other by done. apply lookup_insert_eq.
Qed.

(** X14: a row too short to reach the [postal_code] column gets [None] for it:
    the row is passed over, for every target, and nothing is raised.
    This holds also when an earlier column of the same name is filled. *)
Theorem short_row_is_skipped fieldnames row postal_code results :
  "postal_code" ∈ drop (length row) fieldnames →
  make_record fieldnames row !! Some "postal_code" = Some VNone ∧
  check_row postal_code results (make_record fieldnames row) = Ok results.
Proof.
  intros Hcol.
  assert (make_record fieldnames row !! Some "postal_code" = Some VNone) as Hnone.
  { unfold make_record.
    assert (length row < length fieldnames) as Hlt.
    { destruct (decide (length row < length fieldnames)); [done|].
      rewrite drop_ge in Hcol by lia. by apply elem_of_nil in Hcol. }
    rewrite decide_False by lia. rewrite decide_True by done.
    by apply fill_missing_in. }
  split; [done|]. unfold check_row. rewrite Hnone.
  by rewrite decide_False.
Qed.

Lemma short_row_is_skipped_sample :
  make_record ["postal_code"; "city"; "postal_code"] ["6369CW"; "Simpelveld"]
    !! Some "postal_code" = Some VNone ∧
  check_row "6369CW" []
    (make_record ["postal_code"; "city"; "postal_code"] ["6369CW"; "Simpelveld"])
  = Ok [].
Proof.
  apply (short_row_is_skipped ["postal_code"; "city"; "postal_code"]
           ["6369CW"; "Simpelveld"] "6369CW" []).
  simpl. left.
Defined.

Lemma dict_zip_last fieldnames : ∀ row d i key field,
  fieldnames !! i = Some key →
  key ∉ drop (S i) fieldnames →
  row !! i = Some field →
  foldl (λ d kv, <[Some kv.1 := VStr kv.2]> d) d (zip fieldnames row) !! Some key
  = Some (VStr field).
Proof.
  induction fieldnames as [|name fieldnames IH];
    intros row d i key field Hkey Hlast Hfield; [done|].
  destruct row as [|field0 row]; [done|].
  destruct i as [|i]; simpl in *.
  - injection Hkey as ->. injection Hfield as ->.
    rewrite drop_0 in Hlast.
    rewrite dict_zip_other by done. apply lookup_insert_eq.
  - by eapply IH.
Qed.

(** X15: a field is found under the name of its column, as a string, provided
    no later column has the same name: of columns with the same name the
    last one is the one the record shows. *)
Theorem make_record_last_column fieldnames row i key field :
  fieldnames !! i = Some key →
  key ∉ drop (S i) fieldnames →
  row !! i = Some field →
  make_record fieldnames row !! Some key = Some (VStr field).
Proof.
  intros Hkey Hlast Hfield. unfold make_record, dict_zip.
  repeat case_decide.
  - rewrite lookup_insert_ne by done. by eapply dict_zip_last.
  - rewrite fill_missing_other; [by eapply dict_zip_last|].
    apply lookup_lt_Some in Hfield. intros Hin. apply Hlast.
    replace (length row) with (S i + (length row - S i)) in Hin by lia.
    rewrite <- drop_drop in Hin. by apply subseteq_drop in Hin.
  - by eapply dict_zip_last.
Qed.

Lemma make_record_last_column_sample :
  make_record ["postal_code"; "city"; "postal_code"] ["6369CW"; "Simpelveld"; "6411AA"]
    !! Some "postal_code" = Some (VStr "6411AA").
Proof.
  apply (make_record_last_column _ _ 2); [reflexivity | | reflexivity].
  simpl. apply not_elem_of_nil.
Defined.

Lemma dict_zip_restkey fieldnames : ∀ row d,
  foldl (λ d kv, <[Some kv.1 := VStr kv.2]> d) d (zip fieldnames row) !! None
  = d !! None.
Proof.
  induction fieldnames as [|name fieldnames IH]; intros row d; [done|].
  destruct row as [|field row]; [done|]. simpl.
  rewrite IH. by apply lookup_insert_ne.
Qed.

Lemma fill_missing_restkey names : ∀ d,
  foldl (λ d name, <[Some name := VNone]> d) d names !! None = d !! None.
Proof.
  induction names as [|name names IH]; intros d; [done|]. simpl.
  rewrite IH. by apply lookup_insert_ne.
Qed.

(** X16: the keys of a record are the header's names, all of them whatever the
    length of the row, and the key [None] exactly when the row is longer
    than the header; it then holds the surplus fields. *)
Theorem make_record_dom fieldnames row :
  dom (make_record fieldnames row)
    = list_to_set (Some <$> fieldnames)
      ∪ (if decide (length fieldnames < length row) then {[None]} else ∅) ∧
  make_record fieldnames row !! None
    = if decide (length fieldnames < length row)
      then Some (VList (drop (length fieldnames) row)) else None.
Proof.
  assert (make_record fieldnames row !! None
    = if decide (length fieldnames < length row)
      then Some (VList (drop (length fieldnames) row)) else None) as Hrest.
  { unfold make_record, dict_zip. repeat case_decide.
    - apply lookup_insert_eq.
    - by rewrite fill_missing_restkey, dict_zip_restkey.
    - by rewrite dict_zip_restkey. }
  split; [|done]. apply set_eq. intros [key|].
  - rewrite elem_of_dom, make_record_keys, elem_of_union, elem_of_list_to_set.
    rewrite (list_elem_of_fmap_inj Some). split; [tauto|].
    intros [?|Hnone]; [done|]. case_decide; set_solver.
  - rewrite elem_of_dom, Hrest, elem_of_union, elem_of_list_to_set.
    rewrite list_elem_of_fmap. case_decide.
    + split; [intros _; right; set_solver | eauto].
    + split; [by intros [? ?] | intros [(? & ? & ?)|?]; [done | set_solver]].
Qed.

End search_csv_files_more.

(** ** split_csv.py: any [max_lines], where each row goes, paths *)

Section split_csv_more.
Import SplitCsv.
Implicit Types (fs : file_system) (rows data read : File) (row headers : Row).
Implicit Types (s : state) (chunks : list File) (output_folder : string).

(** *** The writer is never used before a part is open *)

Lemma write_row_ok output_folder headers (max_lines : Z) s row :
  (file_count s = 0 → current_line_count s = 0) →
  (file_count s ≠ 0 → current_file s ≠ None) →
  ∃ s', write_row output_folder headers max_lines s row = Ok s' ∧
        file_count s' ≠ 0 ∧ current_file s' ≠ None ∧
        file_count s ≤ file_count s' ≤ S (file_count s).
Proof.
  intros Hstart Hopen. unfold write_row, rotate.
  destruct (decide (current_line_count s = 0)) as [Hzero|Hpos]; simpl.
  - eexists. split; [done|]. simpl. split; [done|]. split; [done|lia].
  - assert (file_count s ≠ 0) as Hcount by (intros ?; by apply Hpos, Hstart).
    destruct (current_file s) as [path|] eqn:Hcur; [|by destruct (Hopen Hcount)].
    eexists. split; [done|]. simpl. split; [done|]. split; [done|lia].
Qed.

Lemma for_each_write_row_ok output_folder headers (max_lines : Z) rows : ∀ s,
  (file_count s = 0 → current_line_count s = 0) →
  (file_count s ≠ 0 → current_file s ≠ None) →
  ∃ s', for_each (write_row output_folder headers max_lines) s rows = Ok s' ∧
        (file_count s' ≠ 0 → current_file s' ≠ None) ∧
        (rows ≠ [] → file_count s' ≠ 0) ∧
        file_count s ≤ file_count s' ≤ file_count s + length rows.
Proof.
  induction rows as [|row rows IH]; intros s Hstart Hopen; simpl.
  - exists s. split; [done|]. split; [done|]. split; [done|lia].
  - destruct (write_row_ok output_folder headers max_lines s row Hstart Hopen)
      as (s1 & -> & Hcount1 & Hcur1 & Hle1). simpl.
    destruct (IH s1) as (s' & -> & Hopen' & _ & Hle); [done..|].
    exists s'. split; [done|]. split; [done|]. split; [lia|lia].
Qed.

(** X17: whatever [max_lines] is, zero and negative numbers included, the
    splitter, given an output folder that can be created, returns on a
    source with a header: the writer is never used before a part has been
    opened.  It makes at most one part per data row, and at least one part
    when there is a data row. *)
Theorem split_csv_returns headers data output_folder (max_lines : Z) fs :
  output_folder ≠ "" →
  ∃ s, split_csv (headers :: data) output_folder max_lines fs = Ok s ∧
       file_count s ≤ length data ∧
       (data ≠ [] → 1 ≤ file_count s ∧ is_Some (current_file s)).
Proof.
  intros Hfolder. rewrite split_csv_loop by done.
  destruct (for_each_write_row_ok output_folder headers max_lines data
              (State 0 0 None fs)) as (s & Hrun & Hopen & Hne & Hle); [done..|].
  exists s. split; [done|]. simpl in Hle. split; [lia|].
  intros Hdata. specialize (Hne Hdata). split; [lia|].
  specialize (Hopen Hne). by destruct (current_file s).
Qed.

Lemma split_csv_returns_sample :
  ∃ s, split_csv (sample_headers :: sample_data) "./data_split" (-3) ∅ = Ok s ∧
       file_count s ≤ length sample_data ∧
       (sample_data ≠ [] → 1 ≤ file_count s ∧ is_Some (current_file s)).
Proof.
  apply (split_csv_returns sample_headers sample_data "./data_split" (-3) ∅).
  discriminate.
Defined.

(** *** Zero or negative [max_lines] *)

Lemma write_row_single output_folder headers (max_lines : Z) s row :
  (max_lines ≤ 0)%Z →
  current_line_count s = 0 →
  write_row output_folder headers max_lines s row
  = Ok (State (S (file_count s)) 0
          (Some (part_path output_folder (S (file_count s))))
          (<[part_path output_folder (S (file_count s)) := [headers; row]]>
             (files s))).
Proof.
  intros Hmax Hzero. unfold write_row, rotate.
  rewrite decide_True by done. simpl. rewrite Hzero.
  rewrite decide_True by lia. by rewrite new_part_files.
Qed.

Lemma for_each_write_row_single output_folder headers (max_lines : Z) rows : ∀ s,
  (max_lines ≤ 0)%Z →
  current_line_count s = 0 →
  ∃ s', for_each (write_row output_folder headers max_lines) s rows = Ok s' ∧
        file_count s' = file_count s + length rows ∧
        current_line_count s' = 0 ∧
        (∀ i row, rows !! i = Some row →
           files s' !! part_path output_folder (file_count s + S i)
           = Some [headers; row]) ∧
        (∀ path, (∀ i, i < length rows →
                       path ≠ part_path output_folder (file_count s + S i)) →
                 files s' !! path = files s !! path).
Proof.
  induction rows as [|row rows IH]; intros s Hmax Hzero.
  - exists s. simpl. split; [done|]. split; [lia|]. split; [done|]. by split.
  - cbn [for_each]. rewrite write_row_single by done. cbn [bind].
    destruct (IH (State (S (file_count s)) 0
                    (Some (part_path output_folder (S (file_count s))))
                    (<[part_path output_folder (S (file_count s)) := [headers; row]]>
                       (files s))))
      as (s' & Hrun & Hcount & Hclc & Hparts & Hframe); [done..|].
    simpl in *. exists s'. split; [done|]. split; [lia|]. split; [done|]. split.
    + intros [|i] row' Hrow; simpl in Hrow.
      * injection Hrow as <-. rewrite Hframe.
        -- replace (file_count s + 1) with (S (file_count s)) by lia.
           apply lookup_insert_eq.
        -- intros i Hi Heq%part_path_inj. lia.
      * replace (file_count s + S (S i)) with (S (file_count s + S i)) by lia.
        by apply Hparts.
    + intros path Hpath. rewrite Hframe.
      * apply lookup_insert_ne. intros Heq. apply (Hpath 0); [lia|].
        rewrite <- Heq. f_equal. lia.
      * intros i Hi. replace (S (file_count s + S i))
          with (file_count s + S (S i)) by lia.
        apply Hpath. lia.
Qed.

(** X18: with [max_lines] zero or negative, and an output folder that can
    be created, the count is reset after every row: each data row gets a
    part of its own, header and that row, and nothing else is written. *)
Theorem split_csv_one_row_per_part headers data output_folder (max_lines : Z) fs :
  output_folder ≠ "" →
  (max_lines ≤ 0)%Z →
  ∃ s, split_csv (headers :: data) output_folder max_lines fs = Ok s ∧
       file_count s = length data ∧
       (∀ i row, data !! i = Some row →
          files s !! part_path output_folder (S i) = Some [headers; row]) ∧
       (∀ path, (∀ i, i < length data → path ≠ part_path output_folder (S i)) →
                files s !! path = fs !! path).
Proof.
  intros Hfolder Hmax. rewrite split_csv_loop by done.
  destruct (for_each_write_row_single output_folder headers max_lines data
              (State 0 0 None fs) Hmax eq_refl)
    as (s & Hrun & Hcount & _ & Hparts & Hframe).
  exists s. simpl in *. split; [done|]. split; [done|]. by split.
Qed.

Lemma split_csv_one_row_per_part_sample :
  ∃ s, split_csv (sample_headers :: sample_data) "./data_split" 0 ∅ = Ok s ∧
       file_count s = length sample_data ∧
       (∀ i row, sample_data !! i = Some row →
          files s !! part_path "./data_split" (S i) = Some [sample_headers; row]) ∧
       (∀ path, (∀ i, i < length sample_data →
                      path ≠ part_path "./data_split" (S i)) →
                files s !! path = (∅ : file_system) !! path).
Proof.
  apply (split_csv_one_row_per_part sample_headers sample_data "./data_split" 0 ∅).
  - discriminate.
  - lia.
Defined.

(** *** Which rows go to which part *)

Lemma chunks_take_drop {A} (n : nat) (chunks : list (list A)) :
  (∀ i c, chunks !! i = Some c → S i < length chunks → length c = n) →
  (∀ i c, chunks !! i = Some c → length c ≤ n) →
  ∀ i c, chunks !! i = Some c → c = take n (drop (i * n) (concat chunks)).
Proof.
  induction chunks as [|c0 chunks IH]; intros Hfull Hmost i c Hc; [done|].
  destruct i as [|i]; simpl in *.
  - injection Hc as ->. rewrite ?drop_0. destruct chunks as [|c1 chunks].
    + simpl. rewrite app_nil_r. symmetry. apply take_ge. by apply (Hmost 0).
    + rewrite <- (Hfull 0 c eq_refl) by (simpl; lia).
      by rewrite take_app_length.
  - assert (length c0 = n) as Hc0.
    { apply (Hfull 0 c0 eq_refl). apply lookup_lt_Some in Hc. lia. }
    change (S i * n) with (n + i * n).
    replace (drop (n + i * n) (c0 ++ concat chunks))
      with (drop (i * n) (concat chunks))
      by (rewrite <- drop_drop, <- Hc0; by rewrite drop_app_length).
    apply IH; [|by intros j c' Hc'; apply (Hmost (S j))|done].
    intros j c' Hc' Hj. apply (Hfull (S j)); [done|lia].
Qed.

(** X19: part number [i] holds, after the header, the [max_lines] data rows
    that follow the first [(i - 1) * max_lines], or as many as are left. *)
Theorem split_csv_part_content headers data output_folder (max_lines : Z) fs :
  output_folder ≠ "" →
  (1 ≤ max_lines)%Z →
  ∃ s, split_csv (headers :: data) output_folder max_lines fs = Ok s ∧
       ∀ i, i ∈ part_numbers s →
         files s !! part_path output_folder i
         = Some (headers :: take (Z.to_nat max_lines)
                              (drop ((i - 1) * Z.to_nat max_lines) data)).
Proof.
  intros Hfolder Hmax.
  destruct (split_csv_inv headers data output_folder max_lines fs Hfolder Hmax)
    as (s & chunks & Hrun & Hinv).
  exists s. split; [done|]. intros i Hi.
  destruct (split_inv_part _ _ _ _ _ _ _ _ Hinv Hi)
    as (j & chunk & -> & Hchunk & Hfile & _).
  rewrite Hfile. do 2 f_equal.
  pose proof (inv_bound _ _ _ _ _ _ _ Hinv) as Hbound.
  rewrite <- (inv_concat _ _ _ _ _ _ _ Hinv).
  replace (S j - 1) with j by lia.
  apply chunks_take_drop; [| |done].
  - intros k c Hc Hk. rewrite (inv_count _ _ _ _ _ _ _ Hinv) in Hk.
    pose proof (inv_sizes _ _ _ _ _ _ _ Hinv k c Hc) as Hsize.
    rewrite decide_False in Hsize by (intros [? _]; lia). lia.
  - intros k c Hc.
    pose proof (inv_sizes _ _ _ _ _ _ _ Hinv k c Hc) as Hsize.
    case_decide; lia.
Qed.

Lemma split_csv_part_content_sample :
  ∃ s, split_csv (sample_headers :: sample_data) "./data_split" 2 ∅ = Ok s ∧
       ∀ i, i ∈ part_numbers s →
         files s !! part_path "./data_split" i
         = Some (sample_headers :: take (Z.to_nat 2)
                                     (drop ((i - 1) * Z.to_nat 2) sample_data)).
Proof.
  apply (split_csv_part_content sample_headers sample_data "./data_split" 2 ∅).
  - discriminate.
  - lia.
Defined.

(** X20: the number of parts is the number of data rows divided by [max_lines],
    rounded up, and the count left in the loop is the remainder of that
    division. *)
Theorem split_csv_part_count headers data output_folder (max_lines : Z) fs :
  output_folder ≠ "" →
  (1 ≤ max_lines)%Z →
  ∃ s, split_csv (headers :: data) output_folder max_lines fs = Ok s ∧
       Z.of_nat (file_count s)
       = ((Z.of_nat (length data) + max_lines - 1) / max_lines)%Z ∧
       Z.of_nat (current_line_count s)
       = (Z.of_nat (length data) mod max_lines)%Z.
Proof.
  intros Hfolder Hmax.
  destruct (split_csv_inv headers data output_folder max_lines fs Hfolder Hmax)
    as (s & chunks & Hrun & Hinv).
  exists s. split; [done|].
  pose proof (inv_total _ _ _ _ _ _ _ Hinv) as Htotal.
  pose proof (inv_bound _ _ _ _ _ _ _ Hinv) as Hbound.
  destruct (decide (current_line_count s = 0)) as [Hzero|Hpos].
  - split.
    + apply (Z.div_unique_pos _ _ _ (max_lines - 1)); lia.
    + rewrite Hzero.
      apply (Z.mod_unique_pos _ _ (Z.of_nat (file_count s))); lia.
  - split.
    + apply (Z.div_unique_pos _ _ _ (Z.of_nat (current_line_count s) - 1)); lia.
    + apply (Z.mod_unique_pos _ _ (Z.of_nat (file_count s) - 1)); lia.
Qed.

Lemma split_csv_part_count_sample :
  ∃ s, split_csv (sample_headers :: sample_data) "./data_split" 2 ∅ = Ok s ∧
       Z.of_nat (file_count s)
       = ((Z.of_nat (length sample_data) + 2 - 1) / 2)%Z ∧
       Z.of_nat (current_line_count s)
       = (Z.of_nat (length sample_data) mod 2)%Z.
Proof.
  apply (split_csv_part_count sample_headers sample_data "./data_split" 2 ∅).
  - discriminate.
  - lia.
Defined.

(** *** The default [max_lines] *)

(** X21: called without [max_lines], with an output folder that can be
    created, on a source of at least one and at most 250000 data rows, the
    splitter writes one part, [part_1.csv], which is the whole source. *)
Theorem split_csv_default_single headers data output_folder fs :
  output_folder ≠ "" →
  data ≠ [] →
  (Z.of_nat (length data) ≤ default_max_lines)%Z →
  ∃ s, split_csv_default (headers :: data) output_folder fs = Ok s ∧
       part_numbers s = [1] ∧
       files s !! part_path output_folder 1 = Some (headers :: data).
Proof.
  intros Hfolder Hdata Hlen.
  unfold split_csv_default. unfold default_max_lines in *.
  destruct (split_csv_inv headers data output_folder 250000 fs)
    as (s & chunks & Hrun & Hinv); [done | lia |].
  exists s. split; [done|].
  assert (0 < length data) as Hpos by (destruct data; simpl; [done|lia]).
  assert (1 ≤ 250000)%Z as Hmax by lia.
  assert (file_count s = 1) as Hcount.
  { destruct (decide (Z.of_nat (length data) = 250000%Z)) as [Hfull|Hless].
    - apply (split_inv_exact _ _ _ _ _ _ _ 1 Hmax Hinv); lia.
    - apply (split_inv_remainder _ _ _ _ _ _ _ 0 (length data) Hmax Hinv); lia. }
  split; [by unfold part_numbers; rewrite Hcount|].
  pose proof (inv_count _ _ _ _ _ _ _ Hinv) as Hchunks. rewrite Hcount in Hchunks.
  destruct chunks as [|chunk [|? ?]]; simpl in Hchunks; try lia.
  rewrite (inv_files _ _ _ _ _ _ _ Hinv 0 chunk eq_refl).
  rewrite <- (inv_concat _ _ _ _ _ _ _ Hinv). simpl. by rewrite app_nil_r.
Qed.

Lemma split_csv_default_single_sample :
  ∃ s, split_csv_default (sample_headers :: sample_data) "./data_split" ∅ = Ok s ∧
       part_numbers s = [1] ∧
       files s !! part_path "./data_split" 1 = Some (sample_headers :: sample_data).
Proof.
  apply (split_csv_default_single sample_headers sample_data "./data_split" ∅).
  - discriminate.
  - discriminate.
  - unfold default_max_lines. simpl. lia.
Defined.

(** *** Paths of the parts *)

(** X22: parts with different numbers have different paths: within a run no
    part is written over another. *)
Theorem part_path_distinct output_folder (i j : nat) :
  i ≠ j → part_path output_folder i ≠ part_path output_folder j.
Proof. intros Hne Heq. by apply Hne, (part_path_inj output_folder). Qed.

Lemma part_path_distinct_sample :
  1 ≠ 10 ∧ part_path "./data_split" 1 ≠ part_path "./data_split" 10.
Proof.
  split; [lia|]. apply (part_path_distinct "./data_split" 1 10). lia.
Defined.

Lemma string_app_assoc (s1 s2 s3 : string) :
  (s1 +:+ s2) +:+ s3 = s1 +:+ (s2 +:+ s3).
Proof.
  induction s1 as [|c s1 IH]; [done|].
  change (String c ((s1 +:+ s2) +:+ s3) = String c (s1 +:+ (s2 +:+ s3))).
  by rewrite IH.
Qed.

Lemma os_path_join_slash (a b : string) :
  a ≠ "" → endswith a "/" = false →
  os_path_join (a +:+ "/") b = os_path_join a b.
Proof.
  intros Hne Hslash. unfold os_path_join.
  destruct (String.prefix "/" b); [done|].
  rewrite Hslash, (bool_decide_eq_false_2 (a = "")) by done.
  assert (endswith (a +:+ "/") "/" = true) as ->
    by (apply endswith_spec; by exists a).
  rewrite orb_true_r. simpl. apply string_app_assoc.
Qed.

Lemma for_each_ext {S A} (body1 body2 : S → A → result S) (xs : list A) : ∀ st,
  (∀ st x, body1 st x = body2 st x) →
  for_each body1 st xs = for_each body2 st xs.
Proof.
  induction xs as [|x xs IH]; intros st Hbody; simpl; [done|].
  rewrite Hbody. destruct (body2 st x); simpl; [by apply IH | done].
Qed.

(** X23: an output folder given with a slash at its end and the same folder
    given without it are the same to the splitter. *)
Theorem split_csv_trailing_slash source output_folder (max_lines : Z) fs :
  output_folder ≠ "" →
  endswith output_folder "/" = false →
  split_csv source (output_folder +:+ "/") max_lines fs
  = split_csv source output_folder max_lines fs.
Proof.
  intros Hne Hslash. unfold split_csv, ensure_folder.
  rewrite decide_False by (by destruct output_folder).
  rewrite decide_False by done. simpl.
  destruct source as [|headers rows]; [done|].
  apply for_each_ext. intros s row. unfold write_row, rotate.
  by rewrite os_path_join_slash.
Qed.

Lemma split_csv_trailing_slash_sample :
  split_csv sample_source ("./data_split" +:+ "/") 2 ∅
  = split_csv sample_source "./data_split" 2 ∅.
Proof.
  apply (split_csv_trailing_slash sample_source "./data_split" 2 ∅).
  - discriminate.
  - reflexivity.
Defined.

(** X24: parts with a number above the final [file_count], left by an
    earlier run on a longer source, are not removed nor changed, whatever
    [max_lines] is (the output folder being one that can be created). *)
Theorem split_csv_keeps_stale_parts headers data output_folder (max_lines : Z) fs :
  output_folder ≠ "" →
  ∃ s, split_csv (headers :: data) output_folder max_lines fs = Ok s ∧
       ∀ i, file_count s < i →
            files s !! part_path output_folder i = fs !! part_path output_folder i.
Proof.
  intros Hfolder. destruct (decide (1 ≤ max_lines)%Z) as [Hmax|Hmax].
  - destruct (split_csv_inv headers data output_folder max_lines fs Hfolder Hmax)
      as (s & chunks & Hrun & Hinv).
    exists s. split; [done|]. intros i Hi.
    apply (inv_frame _ _ _ _ _ _ _ Hinv).
    intros j Hj Heq%part_path_inj. lia.
  - rewrite split_csv_loop by done.
    destruct (for_each_write_row_single output_folder headers max_lines data
                (State 0 0 None fs) ltac:(lia) eq_refl)
      as (s & Hrun & Hcount & _ & _ & Hframe).
    exists s. split; [done|]. simpl in *. intros i Hi.
    apply Hframe. intros j Hj Heq%part_path_inj. lia.
Qed.

Lemma split_csv_keeps_stale_parts_sample :
  ∃ s, split_csv (sample_headers :: sample_data) "./data_split" 2
         {[ part_path "./data_split" 7 := [sample_headers; ["70"; "z"]] ]} = Ok s ∧
       ∀ i, file_count s < i →
            files s !! part_path "./data_split" i
            = ({[ part_path "./data_split" 7 := [sample_headers; ["70"; "z"]] ]}
                 : file_system) !! part_path "./data_split" i.
Proof.
  apply (split_csv_keeps_stale_parts sample_headers sample_data "./data_split" 2).
  discriminate.
Defined.

End split_csv_more.
